(** * IHP cell generators and simulation utilities: a shallow embedding

    Source files embedded here:
    - [src/ihp/cells/capacitors.py]      ([add_rect], [cmim], [rfcmim])
    - [src/ihp/cells/bjt_transistors.py] ([npn13G2])
    - [src/examples/sim_utils.py]        ([upload_simulation_dir],
                                           [print_job_summary], [plot_mesh_pv])

    Numbers.  The Python code computes on [float].  In the modules
    [capacitors] and [bjt_transistors] every float is read as the rational
    number it stands for: literals denote their decimal value and [+ - * /]
    are exact, so what is stated of them is stated of the closed-form
    geometry the code writes down.  Where binary rounding decides what the
    code does, in the number of Vmim tiles of [cmim], the module [binary64]
    gives the same lines of the source on IEEE binary64 numbers.  Python
    [int] is [Z]. *)

From Stdlib Require Import ZArith QArith Qround Qminmax Lqa List String Lia.
From Stdlib Require Floats Uint63.
From stdpp Require Import gmap strings list pretty.

#[local] Set Warnings "-register-all".
Local Open Scope Q_scope.

(** ** Python numeric built-ins *)

Module py.

(** [round(x)] on a float: nearest integer, ties go to the even one. *)
Definition round (x : Q) : Z :=
  let f := Qfloor x in
  match Qcompare (x - inject_Z f) (1 # 2) with
  | Lt => f
  | Gt => (f + 1)%Z
  | Eq => if Z.even f then f else (f + 1)%Z
  end.

(** [int(math.floor(x))]. *)
Definition floor (x : Q) : Z := Qfloor x.

(** [min(a, b)]: the first of the two unless the second is smaller. *)
Definition min (a b : Q) : Q := if Qlt_le_dec b a then b else a.

(** [max(a, b)] on integers. *)
Definition max (a b : Z) : Z := if (a <? b)%Z then b else a.

(** [range(n)]: 0, 1, ..., n-1; empty when [n <= 0]. *)
Definition range (n : Z) : list Z := map Z.of_nat (seq 0 (Z.to_nat n)).

(** A [dict] keeps its keys in insertion order: [d[k] = v] replaces in
    place or appends. *)
Fixpoint dict_set {K V : Type} `{EqDecision K} (d : list (K * V)) (k : K) (v : V)
  : list (K * V) :=
  match d with
  | [] => [(k, v)]
  | (k', v') :: d' =>
      if decide (k = k') then (k, v) :: d' else (k', v') :: dict_set d' k v
  end.

Fixpoint dict_get {K V : Type} `{EqDecision K} (d : list (K * V)) (k : K) : option V :=
  match d with
  | [] => None
  | (k', v) :: d' => if decide (k = k') then Some v else dict_get d' k
  end.

(** [for i in range(n): body], threading the mutated state. *)
Definition for_range {S : Type} (n : Z) (body : Z -> S -> S) (s : S) : S :=
  fold_left (fun acc i => body i acc) (range n) s.

End py.

(** ** The part of gdsfactory the cells use

    A component is built up imperatively: references to rectangle cells are
    appended, ports are appended, and [info] is a dictionary.  The component
    under construction is threaded explicitly. *)

Module gf.

Definition LayerSpec := string.

(** [gf.components.rectangle(size, layer, centered)]. *)
Record Rectangle := {
  size : Q * Q;
  layer : LayerSpec;
  centered : bool
}.

(** A reference (instance) of a rectangle, placed at [at_]. *)
Record Ref := {
  cell : Rectangle;
  at_ : Q * Q
}.

Record Port := {
  name : string;
  center : Q * Q;
  width : Q;
  orientation : Z;
  port_layer : LayerSpec;
  port_type : string
}.

(** Values stored in [Component.info] by the cells. *)
Inductive InfoValue :=
| IStr (s : string)
| IFloat (q : Q)
| IPair (a b : Z).

Record Component := {
  refs : list Ref;
  ports : list Port;
  info : list (string * InfoValue)
}.

(** [Component()] *)
Definition new : Component := {| refs := []; ports := []; info := [] |}.

(** [ref.move(v)] *)
Definition move (r : Ref) (v : Q * Q) : Ref :=
  {| cell := cell r; at_ := (fst (at_ r) + fst v, snd (at_ r) + snd v) |}.

(** [component.add_ref(rect)] followed by a move of the reference just
    added: the reference held by the component is the moved one. *)
Definition add_ref_moved (c : Component) (rect : Rectangle) (v : Q * Q) : Component :=
  {| refs := refs c ++ [move {| cell := rect; at_ := (0, 0) |} v];
     ports := ports c;
     info := info c |}.

Definition add_port (c : Component) (p : Port) : Component :=
  {| refs := refs c; ports := ports c ++ [p]; info := info c |}.

(** [c.info.update({...})] *)
Definition info_update (c : Component) (kvs : list (string * InfoValue)) : Component :=
  {| refs := refs c; ports := ports c;
     info := fold_left (fun d kv => py.dict_set d (fst kv) (snd kv)) kvs (info c) |}.

(** Geometry of a placed rectangle. *)
Definition x_min (r : Ref) : Q :=
  if centered (cell r) then fst (at_ r) - fst (size (cell r)) / 2 else fst (at_ r).
Definition y_min (r : Ref) : Q :=
  if centered (cell r) then snd (at_ r) - snd (size (cell r)) / 2 else snd (at_ r).
Definition x_max (r : Ref) : Q := x_min r + fst (size (cell r)).
Definition y_max (r : Ref) : Q := y_min r + snd (size (cell r)).
Definition x_size (r : Ref) : Q := fst (size (cell r)).
Definition y_size (r : Ref) : Q := snd (size (cell r)).
Definition x_center (r : Ref) : Q := (x_min r + x_max r) / 2.
Definition y_center (r : Ref) : Q := (y_min r + y_max r) / 2.
Definition area (r : Ref) : Q := x_size r * y_size r.

Definition port_named (c : Component) (n : string) : option Port :=
  find (fun p => String.eqb (name p) n) (ports c).

End gf.

(** ** src/ihp/cells/capacitors.py *)

Module capacitors.
Import gf.

(** Create rectangle, add ref to component and move to origin. *)
Definition add_rect (component : Component) (size : Q * Q) (layer : LayerSpec)
    (origin : Q * Q) (centered : bool) : Component :=
  let rect := {| gf.size := size; gf.layer := layer; gf.centered := centered |} in
  add_ref_moved component rect origin.

Definition cmim
    (width length : Q) (capacitance : option Q) (model : string)
    (layer_metal5 layer_mim layer_topmetal1 layer_vmim : LayerSpec) : Component :=
  let c := gf.new in
  (* Geometrical constants *)
  let METAL_5_MIM_MARGIN := 0.6 in
  let METAL_1_MIM_MARGIN := 0.34 in
  let metal_1_mim_margin_x := -0.004 * width + 0.625 in
  let VMIM_TILE_LENGTH := 0.42 in
  let VMIM_TILE_GAP := 0.84 in
  let GRID_STEP := 0.005 in
  (* Grid snapping *)
  let length := inject_Z (py.round (length / GRID_STEP)) * GRID_STEP in
  let width := inject_Z (py.round (width / GRID_STEP)) * GRID_STEP in
  (* Calculate capacitance *)
  let capacitance :=
    match capacitance with
    | None =>
        let CAP_DENSITY := 1.54 in
        let area := width * length in
        area * CAP_DENSITY
    | Some capacitance => capacitance
    end in
  (* Draw MIM layer (X = width, Y = length) *)
  let c := add_rect c (width, length) layer_mim (0.0, 0.0) false in
  (* Draw Metal5 layers (bottom plate, margin around MIM) *)
  let metal_5_size_x := width + 2 * METAL_5_MIM_MARGIN in
  let metal_5_size_y := length + 2 * METAL_5_MIM_MARGIN in
  let c := add_rect c (metal_5_size_x, metal_5_size_y) layer_metal5
             (- METAL_5_MIM_MARGIN, - METAL_5_MIM_MARGIN) false in
  (* Draw TopMetal1 layers (top plate, inset from MIM) *)
  let metal_1_size_x := width - 2 * metal_1_mim_margin_x in
  let metal_1_size_y := length - 2 * METAL_1_MIM_MARGIN in
  let c := add_rect c (metal_1_size_x, metal_1_size_y) layer_topmetal1
             (metal_1_mim_margin_x, METAL_1_MIM_MARGIN) false in
  (* Draw VMIM tiles inside the top plate *)
  let metal_1_vmim_margin := VMIM_TILE_LENGTH in
  let tile_pitch := VMIM_TILE_LENGTH + VMIM_TILE_GAP in
  let usable_x := width - 2 * metal_1_vmim_margin in
  let usable_y := length - 2 * metal_1_vmim_margin in
  (* Calculate number of tiles *)
  let n_tiles_x := py.max (py.floor ((usable_x + VMIM_TILE_GAP) / tile_pitch)) 0 in
  let n_tiles_y := py.max (py.floor ((usable_y + VMIM_TILE_GAP) / tile_pitch)) 0 in
  let c :=
    py.for_range n_tiles_x (fun ix c =>
      py.for_range n_tiles_y (fun iy c =>
        let x := METAL_1_MIM_MARGIN + metal_1_vmim_margin + inject_Z ix * tile_pitch in
        let y := METAL_1_MIM_MARGIN + metal_1_vmim_margin + inject_Z iy * tile_pitch in
        add_rect c (VMIM_TILE_LENGTH, VMIM_TILE_LENGTH) layer_vmim (x, y) false) c) c in
  (* Add Metal5 port (P1) at plate center *)
  let c := add_port c
    {| name := "P1";
       center := (- METAL_5_MIM_MARGIN + metal_5_size_x / 2.0,
                  - METAL_5_MIM_MARGIN + metal_5_size_y / 2.0);
       width := py.min metal_5_size_x metal_5_size_y;
       orientation := 180;
       port_layer := layer_metal5;
       port_type := "electrical" |} in
  (* Add TopMetal1 port (P2) at plate center *)
  let c := add_port c
    {| name := "P2";
       center := (METAL_1_MIM_MARGIN + metal_1_size_x / 2.0,
                  METAL_1_MIM_MARGIN + metal_1_size_y / 2.0);
       width := py.min metal_1_size_x metal_1_size_y;
       orientation := 0;
       port_layer := layer_topmetal1;
       port_type := "electrical" |} in
  (* Metadata *)
  let c := info_update c
    [ ("model", IStr model);
      ("capacitance", IFloat capacitance);
      ("mim_length", IFloat length);
      ("mim_width", IFloat width);
      ("vmim_tile_length", IFloat VMIM_TILE_LENGTH);
      ("n_vmim_tiles", IPair n_tiles_x n_tiles_y) ] in
  c.

Definition rfcmim
    (width length : Q) (capacitance : option Q) (model : string)
    (layer_activ layer_mim layer_metal1 layer_metal1_pin layer_metal5
     layer_metal5_pin layer_topmetal1 layer_topmetal1_pin layer_vmim
     layer_cont layer_psd layer_pwellblock : LayerSpec)
    (layers_no_qrc : list LayerSpec) : Component :=
  let c := gf.new in
  (* Geometrical constants *)
  let MIM_METAL_5_MARGIN := 0.6 in
  let MIM_PWELL_MARGIN := 3 in
  let NO_QRC_PWELL_MARGIN := 2.6 in
  (* Grid snapping *)
  let length := inject_Z (py.round (length / 0.005)) * 0.005 in
  let width := inject_Z (py.round (width / 0.005)) * 0.005 in
  (* Calculate capacitance *)
  let capacitance :=
    match capacitance with
    | None =>
        let CAP_DENSITY := 1.54 in
        let area := width * length in
        area * CAP_DENSITY
    | Some capacitance => capacitance
    end in
  (* MIM layer *)
  let c := add_rect c (length, width) layer_mim (0, 0) false in
  (* PWell block layer *)
  let p_well_length := 2 * MIM_PWELL_MARGIN + length in
  let p_well_width := 2 * MIM_PWELL_MARGIN + width in
  let p_well_corner := (- MIM_PWELL_MARGIN, - MIM_PWELL_MARGIN) in
  let c := add_rect c (p_well_length, p_well_width) layer_pwellblock p_well_corner false in
  (* No QRC layers *)
  let no_qrc_length := 2 * (MIM_PWELL_MARGIN + NO_QRC_PWELL_MARGIN) + length in
  let no_qrc_width := 2 * (MIM_PWELL_MARGIN + NO_QRC_PWELL_MARGIN) + width in
  let no_qrc_corner := (- MIM_PWELL_MARGIN - NO_QRC_PWELL_MARGIN,
                        - MIM_PWELL_MARGIN - NO_QRC_PWELL_MARGIN) in
  let c := fold_left (fun c layer =>
             add_rect c (no_qrc_length, no_qrc_width) layer no_qrc_corner false)
             layers_no_qrc c in
  (* Metal5 layer *)
  let metal_5_length := 2 * MIM_METAL_5_MARGIN + length in
  let metal_5_width := 2 * MIM_METAL_5_MARGIN + width in
  let metal_5_corner := (- MIM_METAL_5_MARGIN, - MIM_METAL_5_MARGIN) in
  let c := add_rect c (metal_5_length, metal_5_width) layer_metal5 metal_5_corner false in
  c.

(** The default layer arguments of the two signatures. *)
Definition cmim_default (width length : Q) (capacitance : option Q) : Component :=
  cmim width length capacitance "cmim"
    "Metal5drawing" "MIMdrawing" "TopMetal1drawing" "Vmimdrawing".

Definition rfcmim_default (width length : Q) (capacitance : option Q) : Component :=
  rfcmim width length capacitance "rfcmim"
    "Activdrawing" "MIMdrawing" "Metal1drawing" "Metal1pin" "Metal5drawing"
    "Metal5pin" "TopMetal1drawing" "TopMetal1pin" "Vmimdrawing" "Contdrawing"
    "pSDdrawing" "PWellblock"
    [ "Activnoqrc"; "TopMetal1noqrc"; "Metal1noqrc"; "Metal2noqrc";
      "Metal3noqrc"; "Metal4noqrc"; "Metal5noqrc" ].

End capacitors.

(** ** src/ihp/cells/capacitors.py, lines 49-55 and 86-94, on binary64

    The grid snapping and the tile counts of [cmim] as Python computes them:
    every literal is the nearest binary64 number and every operation rounds
    to nearest, ties to even. *)

Module binary64.
Import Floats.
#[local] Set Warnings "-inexact-float".
#[local] Open Scope float_scope.

(** A finite float [x] as a fraction [n / d] with [d] a power of two. *)
Definition ratio (x : float) : option (Z * Z) :=
  match Prim2SF x with
  | S754_zero _ => Some (0, 1)%Z
  | S754_finite s m e =>
      Some ((if s then Z.neg m else Z.pos m) * 2 ^ Z.max e 0, 2 ^ Z.max (- e) 0)%Z
  | _ => None
  end.

(** [int(math.floor(x))]; [None] where it raises, on an infinity or a
    NaN. *)
Definition floor (x : float) : option Z :=
  match ratio x with
  | Some (n, d) => Some (n / d)%Z
  | None => None
  end.

(** [round(x)]: the nearest integer, ties go to the even one; [None] where
    it raises, on an infinity or a NaN. *)
Definition round (x : float) : option Z :=
  match ratio x with
  | Some (n, d) =>
      let f := (n / d)%Z in
      Some match (2 * (n mod d) ?= d)%Z with
           | Lt => f
           | Gt => (f + 1)%Z
           | Eq => if Z.even f then f else (f + 1)%Z
           end
  | None => None
  end.

(** The float an [int] becomes when it is multiplied with a float. *)
Definition of_int (n : Z) : float :=
  if (n <? 0)%Z then - of_uint63 (Uint63.of_Z (- n)) else of_uint63 (Uint63.of_Z n).



(** [round(x / GRID_STEP) * GRID_STEP] *)
Definition grid_snap (x : float) : option float :=
  match round (x / 0.005) with
  | Some k => Some (of_int k * 0.005)
  | None => None
  end.

(** [max(int(math.floor((usable + VMIM_TILE_GAP) / tile_pitch)), 0)] for
    a plate side [v], with [usable = v - 2 * metal_1_vmim_margin]. *)
Definition n_tiles (v : float) : option Z :=
  match floor ((v - 2 * 0.42 + 0.84) / (0.42 + 0.84)) with
  | Some f => Some (py.max f 0)
  | None => None
  end.



(** The count that exact arithmetic gives for the side [k * 0.005]:
    [floor (k * 0.005 / 1.26)], which is [floor (k / 252)]. *)
Definition exact_count (k : Z) : Z := (k / 252)%Z.



End binary64.

(** ** src/ihp/cells/bjt_transistors.py *)

Module bjt_transistors.
Import gf.

Definition npn13G2
    (STI baspolyx bipwinx bipwiny empolyx empolyy emitter_length emitter_width : Q)
    (Nx Ny : Z) (text : string) (CMetY1 CMetY2 : Q)
    (extra_argument_for_naming : option string) : Component :=
  let c := gf.new in
  let layer_via1 : LayerSpec := "Via1drawing" in
  (* for multiplied npn: le has to be bigger *)
  let stepX := 1.85 in
  let bipwinyoffset := (2 * (bipwiny - 0.1) - 0) / 2 in
  let empolyyoffset := (2 * (empolyy - 0.18)) / 2 in
  let leoffset := 0 in
  (* npn13G2_base *)
  let pcStepY := 0.41 in
  let yOffset := 0.20 in
  let pcRepeatY := 4%Z in
  (* [math.floor] of an [int] is the integer itself *)
  py.for_range Nx (fun pcIndexX c =>
    (* two vias are generated per loop *)
    py.for_range pcRepeatY (fun pcIndexY c =>
      (* Via on left side *)
      let via1_size := 0.19 in
      let left := (stepX * inject_Z pcIndexX) - 0.3 in
      let bottom :=
        - ((-0.3 - yOffset - leoffset - bipwinyoffset - empolyyoffset)
           + (inject_Z pcIndexY * pcStepY))
        + 0.2 - via1_size in
      let c := add_ref_moved c
                 {| size := (via1_size, via1_size); layer := layer_via1;
                    centered := false |} (left, bottom) in
      let left := (stepX * inject_Z pcIndexX) + 0.11 in
      (* Via on the right side *)
      let c := add_ref_moved c
                 {| size := (via1_size, via1_size); layer := layer_via1;
                    centered := false |} (left, bottom) in
      c) c) c.

Definition npn13G2_default : Component :=
  npn13G2 0.44 0.3 0.07 0.1 0.15 0.18 0.9 0.7 1 1 "npn13G2" 0 0 None.

End bjt_transistors.

(** ** src/examples/sim_utils.py

    The utilities talk to the file system, to the upload service and to the
    plotting libraries.  Each library call is an event: it is appended to a
    trace together with its outcome, and the environment (the [fault] oracle,
    which sees the trace so far) may make any call fail.  A Python exception
    is the [Raise] result of the monad; code without [try] never turns a
    [Raise] back into a value. *)

Module sim_utils.

Record Exn := { exn_class : string; exn_msg : string }.

Inductive Res (A : Type) :=
| Ok (a : A)
| Raise (e : Exn).
Arguments Ok {A} a.
Arguments Raise {A} e.

(** [pathlib.Path]: a list of components, relative or absolute.  Paths are
    taken normalised: no [.], no [..], no symbolic links. *)
Record Path := { absolute : bool; parts : list string }.

(** Content of a regular file: opaque bytes, a finished zip archive with
    its members (name inside the archive, content), or the bytes of an
    archive still being written. *)
Inductive Data :=
| Raw (bytes : string)
| Archive (members : list (list string * Data))
| Unfinished.

Inductive Node :=
| File (d : Data)
| Dir.

(** The file system is indexed by absolute path; [open_zips] holds, for
    every [ZipFile] open for writing, the members written so far. *)
Record Disk := {
  cwd : list string;
  files : gmap (list string) Node;
  open_zips : gmap (list string) (list (list string * Data))
}.

Definition resolve (d : Disk) (p : Path) : list string :=
  if absolute p then parts p else cwd d ++ parts p.

Definition set_files (d : Disk) (f : gmap (list string) Node) : Disk :=
  {| cwd := cwd d; files := f; open_zips := open_zips d |}.
Definition set_open_zips (d : Disk)
    (z : gmap (list string) (list (list string * Data))) : Disk :=
  {| cwd := cwd d; files := files d; open_zips := z |}.

Definition FileNotFoundError (p : list string) : Exn :=
  {| exn_class := "FileNotFoundError"; exn_msg := String.concat "/" p |}.
Definition IsADirectoryError (p : list string) : Exn :=
  {| exn_class := "IsADirectoryError"; exn_msg := String.concat "/" p |}.
Definition ValueError (msg : string) : Exn :=
  {| exn_class := "ValueError"; exn_msg := msg |}.

Section calls.

(** [sim.JobDefinition] and [sim.PreJob] are opaque to this file. *)
Context {JobDefinition PreJob : Type}.

(** A mesh handle of PyVista: a mesh read from a file, or the cells of a
    mesh that carry one physical-group tag. *)
Inductive Mesh :=
| MeshOf (msh_path : string)
| Subset (m : Mesh) (gid : Z).

Inductive Call :=
(* zipfile, pathlib *)
| ZipFile_open (p : Path)
| ZipFile_write (zf : Path) (file arcname : Path)
| ZipFile_close (p : Path)
| Path_rglob (p : Path)
| Path_is_file (p : Path)
| Path_relative_to (p other : Path)
| Path_unlink (p : Path)
(* gdsfactoryplus: the call carries what is read from [path] *)
| sim_upload_simulation (path : Path) (payload : option Data)
    (job_definition : JobDefinition)
(* builtins *)
| print (line : string)
| IPython_Image (output : string)
| IPython_display (output : string)
(* meshio, pyvista *)
| meshio_read (msh_path : string)
| pv_read (msh_path : string)
| pv_Plotter (off_screen : bool)
| plotter_set_background (color : string)
| mesh_extract_cells (m : Mesh) (gid : Z)
| plotter_add_mesh (m : Mesh) (color : string) (label : option string)
| plotter_add_legend
| plotter_set_camera_position (pos : string)
| plotter_show
| plotter_screenshot (output : string)
| plotter_close.

Definition Event : Type := Call * option Exn.

Record World := { disk : Disk; trace : list Event }.

(** The environment: given the events so far, does this call fail? *)
Variable fault : list Event -> Call -> option Exn.

(** What the upload service answers for a payload and a job definition. *)
Variable upload_reply : Data -> JobDefinition -> PreJob.

Definition M (A : Type) : Type := World -> Res A * World.

#[global] Instance M_ret : MRet M := fun A a w => (Ok a, w).
#[global] Instance M_bind : MBind M := fun A B f m w =>
  match m w with
  | (Ok a, w') => f a w'
  | (Raise e, w') => (Raise e, w')
  end.

Definition log (ev : Event) (d : Disk) (w : World) : World :=
  {| disk := d; trace := trace w ++ [ev] |}.

(** One library call: the environment may fail it; otherwise it acts on
    the disk as [sem] says, which may fail on its own account. *)
Definition lib {A : Type} (c : Call) (sem : Disk -> Res A * Disk) : M A :=
  fun w =>
    match fault (trace w) c with
    | Some e => (Raise e, log (c, Some e) (disk w) w)
    | None =>
        match sem (disk w) with
        | (Ok a, d) => (Ok a, log (c, None) d w)
        | (Raise e, d) => (Raise e, log (c, Some e) d w)
        end
    end.

(** A call with no effect on the disk and a fixed answer. *)
Definition lib_pure {A : Type} (c : Call) (a : A) : M A :=
  lib c (fun d => (Ok a, d)).

(** [for x in xs: body] *)
Fixpoint for_each {A : Type} (xs : list A) (body : A -> M unit) : M unit :=
  match xs with
  | [] => mret tt
  | x :: xs' => body x ;; for_each xs' body
  end.

(** *** zipfile and pathlib *)

(** [zipfile.ZipFile(p, "w", ZIP_STORED)]: creates or truncates [p]. *)
Definition ZipFile (p : Path) : M unit :=
  lib (ZipFile_open p) (fun d =>
    let key := resolve d p in
    match files d !! key with
    | Some Dir => (Raise (IsADirectoryError key), d)
    | _ =>
        match files d !! removelast key with
        | Some Dir =>
            (Ok tt, set_open_zips (set_files d (<[key := File Unfinished]> (files d)))
                      (<[key := []]> (open_zips d)))
        | _ => (Raise (FileNotFoundError key), d)
        end
    end).

(** [zf.close()]: the members written so far become the archive. *)
Definition ZipFile_exit (p : Path) : M unit :=
  lib (ZipFile_close p) (fun d =>
    let key := resolve d p in
    match open_zips d !! key with
    | Some members =>
        (Ok tt, set_open_zips (set_files d (<[key := File (Archive members)]> (files d)))
                  (delete key (open_zips d)))
    | None => (Ok tt, d)
    end).

(** [with zipfile.ZipFile(p, ...) as zf: body].  The archive is closed
    on the way out, also when [body] raised; an error of [close]
    replaces the one in flight. *)
Definition with_ZipFile {A : Type} (p : Path) (body : Path -> M A) : M A :=
  fun w =>
    match ZipFile p w with
    | (Raise e, w1) => (Raise e, w1)
    | (Ok _, w1) =>
        match body p w1 with
        | (Ok a, w2) =>
            match ZipFile_exit p w2 with
            | (Ok _, w3) => (Ok a, w3)
            | (Raise e', w3) => (Raise e', w3)
            end
        | (Raise e, w2) =>
            match ZipFile_exit p w2 with
            | (Ok _, w3) => (Raise e, w3)
            | (Raise e', w3) => (Raise e', w3)
            end
        end
    end.

(** [zf.write(file, arcname=arcname)] *)
Definition ZipFile_write_ (zf file arcname : Path) : M unit :=
  lib (ZipFile_write zf file arcname) (fun d =>
    match open_zips d !! resolve d zf with
    | None => (Raise (ValueError "Attempt to write to ZIP archive that was already closed"), d)
    | Some members =>
        match files d !! resolve d file with
        | Some (File data) =>
            (Ok tt, set_open_zips d
                      (<[resolve d zf := members ++ [(parts arcname, data)]]> (open_zips d)))
        | Some Dir =>  (* a directory is stored as an empty member *)
            (Ok tt, set_open_zips d
                      (<[resolve d zf := members ++ [(parts arcname, Raw EmptyString)]]> (open_zips d)))
        | None => (Raise (FileNotFoundError (resolve d file)), d)
        end
    end).

(** [p.rglob("*")]: every path strictly below [p], as [p / rest]; nothing
    when [p] is not a directory.  The generator is run at the head of the
    loop; the loop body creates and removes no file. *)
Definition rglob_star (p : Path) : M (list Path) :=
  lib (Path_rglob p) (fun d =>
    let base := resolve d p in
    match files d !! base with
    | Some Dir =>
        (Ok (map (fun k => {| absolute := absolute p;
                              parts := parts p ++ drop (List.length base) k |})
               (filter (fun k => base `prefix_of` k /\ k <> base)
                  (map fst (map_to_list (files d))))), d)
    | _ => (Ok [], d)
    end).

(** [p.is_file()] *)
Definition is_file (p : Path) : M bool :=
  lib (Path_is_file p) (fun d =>
    match files d !! resolve d p with
    | Some (File _) => (Ok true, d)
    | _ => (Ok false, d)
    end).

(** [p.relative_to(other)]: a computation on the components only. *)
Definition relative_to (p other : Path) : M Path :=
  lib (Path_relative_to p other) (fun d =>
    if bool_decide (absolute p = absolute other /\ parts other `prefix_of` parts p)
    then (Ok {| absolute := false; parts := drop (List.length (parts other)) (parts p) |}, d)
    else (Raise (ValueError "path is not in the subpath of other"), d)).

(** [p.unlink()] *)
Definition unlink (p : Path) : M unit :=
  lib (Path_unlink p) (fun d =>
    let key := resolve d p in
    match files d !! key with
    | Some (File _) => (Ok tt, set_files d (delete key (files d)))
    | Some Dir => (Raise (IsADirectoryError key), d)
    | None => (Raise (FileNotFoundError key), d)
    end).

(** [sim.upload_simulation(path=..., job_definition=...)]: reads the
    file and leaves the disk as it is. *)
Definition upload_simulation (path : Path) (job_definition : JobDefinition) : M PreJob :=
  fun w =>
    let payload :=
      match files (disk w) !! resolve (disk w) path with
      | Some (File data) => Some data
      | _ => None
      end in
    lib (sim_upload_simulation path payload job_definition) (fun d =>
      match payload with
      | Some data => (Ok (upload_reply data job_definition), d)
      | None => (Raise (FileNotFoundError (resolve d path)), d)
      end) w.

(** Zip all files in a directory (recursively) and upload for simulation. *)
Definition upload_simulation_dir (input_dir : Path) (job_definition : JobDefinition)
  : M PreJob :=
  let zip_path := {| absolute := false; parts := ["simulation_zipfile.zip"] |} in
  with_ZipFile zip_path (fun zf =>
    files ← rglob_star input_dir;
    for_each files (fun file =>
      b ← is_file file;
      if b : bool then
        arcname ← relative_to file input_dir;
        ZipFile_write_ zf file arcname
      else mret tt)) ;;
  pre_job ← upload_simulation zip_path job_definition;
  unlink zip_path ;;  (* Delete the zip file *)
  mret pre_job.

(** *** print_job_summary *)

(** [int(x)] on a float: truncation towards zero. *)
Definition int_of_float (x : Q) : Z :=
  if Qlt_le_dec x 0 then Qceiling x else Qfloor x.

(** [f"{s:<n}"] *)
Definition ljust (s : string) (n : nat) : string :=
  s +:+ String.concat EmptyString (replicate (n - String.length s) " ").

(** [f"{x:.df}"] for [x >= 0]: [d] digits after the point, the last one
    rounded to nearest, ties to even. *)
Definition format_f (d : nat) (x : Q) : string :=
  let scale := (10 ^ Z.of_nat d)%Z in
  let n := py.round (x * inject_Z scale) in
  let frac := pretty (n `mod` scale)%Z in
  pretty (n `div` scale)%Z +:+ "." +:+
  String.concat EmptyString (replicate (d - String.length frac) "0") +:+ frac.

(** The fields of a job that the summary reads.  Timestamps are seconds
    on a common clock. *)
Record Job := {
  job_name : string;
  status_value : string;
  exit_code : Z;
  started_at : option Q;
  finished_at : option Q;
  requested_cpu : Z;
  requested_memory_mb : Z;
  output_size_bytes : Z;
  download_urls : option (list (string * string))
}.

(** Print a concise summary of a simulation job. *)
Definition print_job_summary (job : Job) : M unit :=
  let duration :=
    match started_at job, finished_at job with
    | Some started, Some finished =>
        let delta := finished - started in
        let minutes := (int_of_float delta `div` 60)%Z in
        let seconds := (int_of_float delta `mod` 60)%Z in
        pretty minutes +:+ "m " +:+ pretty seconds +:+ "s"
    | _, _ => "N/A"
    end in
  let size_kb := inject_Z (output_size_bytes job) / 1024 in
  let size_str :=
    if Qlt_le_dec size_kb 1024 then format_f 1 size_kb +:+ " KB"
    else format_f 2 (size_kb / 1024) +:+ " MB" in
  let files :=
    match download_urls job with
    | Some (kv :: kvs) => map fst (kv :: kvs)
    | _ => []
    end in
  lib_pure (print (ljust "Job:" 12 +:+ " " +:+ job_name job)) tt ;;
  lib_pure (print (ljust "Status:" 12 +:+ " " +:+ status_value job +:+
                   " (exit " +:+ pretty (exit_code job) +:+ ")")) tt ;;
  lib_pure (print (ljust "Duration:" 12 +:+ " " +:+ duration)) tt ;;
  lib_pure (print (ljust "Resources:" 12 +:+ " " +:+ pretty (requested_cpu job) +:+
                   " CPU / " +:+ pretty (requested_memory_mb job `div` 1024)%Z +:+
                   " GB")) tt ;;
  lib_pure (print (ljust "Output:" 12 +:+ " " +:+ size_str)) tt ;;
  lib_pure (print (ljust "Files:" 12 +:+ " " +:+ pretty (List.length files) +:+
                   " files")) tt ;;
  for_each files (fun f =>
    lib_pure (print ("             - " +:+ f)) tt).

(** *** plot_mesh_pv *)

(** What the mesh libraries answer: the [field_data] of a mesh file
    (group name to (tag, dimension)), and the number of cells of a mesh. *)
Variable field_data_of : string -> list (string * (Z * Z)).
Variable n_cells_of : Mesh -> Z.

(** [p in name] on strings. *)
Definition contains (name p : string) : bool :=
  match String.index 0 p name with Some _ => true | None => false end.

(** Plot mesh wireframe using PyVista. *)
Definition plot_mesh_pv (msh_path : string) (output : string)
    (show_groups : option (list string)) (interactive : bool) : M unit :=
  (* Get group info *)
  field_data ← lib_pure (meshio_read msh_path) (field_data_of msh_path);
  let group_map : list (Z * string) :=
    fold_left (fun d item => py.dict_set d (fst (snd item)) (fst item))
      field_data [] in
  mesh ← lib_pure (pv_read msh_path) (MeshOf msh_path);
  (if interactive then lib_pure (pv_Plotter false) tt
   else lib_pure (pv_Plotter true) tt) ;;
  lib_pure (plotter_set_background "white") tt ;;
  match show_groups with
  | Some (g :: gs) =>
      let show_groups := g :: gs in
      let ids :=
        map fst (filter (fun item => existsb (contains (snd item)) show_groups = true)
                   group_map) in
      let colors := ["red"; "blue"; "green"; "orange"; "purple"; "cyan"] in
      for_each (imap (fun i gid => (i, gid)) ids) (fun '(i, gid) =>
        subset ← lib_pure (mesh_extract_cells mesh gid) (Subset mesh gid);
        if (0 <? n_cells_of subset)%Z then
          lib_pure (plotter_add_mesh subset
                      (nth (i mod List.length colors) colors EmptyString)
                      (Some (default (pretty gid) (py.dict_get group_map gid)))) tt
        else mret tt) ;;
      lib_pure plotter_add_legend tt
  | _ =>
      lib_pure (plotter_add_mesh mesh "black" None) tt
  end ;;
  lib_pure (plotter_set_camera_position "iso") tt ;;
  if interactive then
    lib_pure plotter_show tt
  else
    lib_pure (plotter_screenshot output) tt ;;
    lib_pure plotter_close tt ;;
    lib_pure (IPython_Image output) tt ;;
    lib_pure (IPython_display output) tt.

End calls.

End sim_utils.

(** * Vocabulary of the statements *)

(** ** Cell geometry *)

Section cell_vocabulary.
Import gf.

(** The value both capacitor cells replace [width] and [length] by. *)
Definition grid_snap (x : Q) : Q := inject_Z (py.round (x / 0.005)) * 0.005.

(** A rectangle of the given size and layer whose lower-left corner was
    moved from the origin to [(x, y)]. *)
Definition placed (sx sy : Q) (ly : LayerSpec) (x y : Q) : Ref :=
  {| cell := {| size := (sx, sy); layer := ly; centered := false |};
     at_ := (0 + x, 0 + y) |}.

(** Number of Vmim tiles along a plate side of snapped extent [v]. *)
Definition n_tiles (v : Q) : Z :=
  py.max (py.floor ((v - 2 * 0.42 + 0.84) / (0.42 + 0.84))) 0.

Definition vmim_tile (ly : LayerSpec) (ix iy : Z) : Ref :=
  placed 0.42 0.42 ly
    (0.34 + 0.42 + inject_Z ix * (0.42 + 0.84))
    (0.34 + 0.42 + inject_Z iy * (0.42 + 0.84)).

Definition vmim_tiles (ly : LayerSpec) (nx ny : Z) : list Ref :=
  flat_map (fun ix => flat_map (fun iy => [vmim_tile ly ix iy]) (py.range ny))
    (py.range nx).

(** Plates laid out width by length: the MIM rectangle [width] by [length]
    and the Metal5 rectangle larger by 1.2 in each direction. *)
Definition plates_width_by_length (mim m5 : Ref) (width length : Q) : Prop :=
  x_size mim == grid_snap width /\ y_size mim == grid_snap length /\
  x_size m5 == grid_snap width + 1.2 /\ y_size m5 == grid_snap length + 1.2.

(** The Metal5 rectangle reaches 0.6 beyond the MIM rectangle on all four
    sides. *)
Definition margin_all_round (mim m5 : Ref) : Prop :=
  x_min m5 == x_min mim - 0.6 /\ x_max m5 == x_max mim + 0.6 /\
  y_min m5 == y_min mim - 0.6 /\ y_max m5 == y_max mim + 0.6.

(** The two vias of column step [ix] at row index [iy]. *)
Definition via_pair (bipwiny empolyy : Q) (ix iy : Z) : list Ref :=
  let bottom :=
    - ((-0.3 - 0.20 - 0 - (2 * (bipwiny - 0.1) - 0) / 2 - (2 * (empolyy - 0.18)) / 2)
       + inject_Z iy * 0.41) + 0.2 - 0.19 in
  [ placed 0.19 0.19 "Via1drawing" (1.85 * inject_Z ix - 0.3) bottom;
    placed 0.19 0.19 "Via1drawing" (1.85 * inject_Z ix + 0.11) bottom ].

Definition via_array (bipwiny empolyy : Q) (Nx : Z) : list Ref :=
  flat_map (fun ix => flat_map (via_pair bipwiny empolyy ix) (py.range 4))
    (py.range Nx).

Definition same_point (a b : Q * Q) : Prop := fst a == fst b /\ snd a == snd b.

Definition same_ref (r1 r2 : Ref) : Prop :=
  layer (cell r1) = layer (cell r2) /\
  centered (cell r1) = centered (cell r2) /\
  same_point (size (cell r1)) (size (cell r2)) /\
  same_point (at_ r1) (at_ r2).

Definition same_port (p1 p2 : Port) : Prop :=
  name p1 = name p2 /\ same_point (center p1) (center p2) /\
  width p1 == width p2 /\ orientation p1 = orientation p2 /\
  port_layer p1 = port_layer p2 /\ port_type p1 = port_type p2.

Definition same_info_value (v1 v2 : InfoValue) : Prop :=
  match v1, v2 with
  | IStr s1, IStr s2 => s1 = s2
  | IFloat q1, IFloat q2 => q1 == q2
  | IPair a1 b1, IPair a2 b2 => a1 = a2 /\ b1 = b2
  | _, _ => False
  end.

Definition same_component (c1 c2 : Component) : Prop :=
  Forall2 same_ref (refs c1) (refs c2) /\
  Forall2 same_port (ports c1) (ports c2) /\
  Forall2 (fun kv1 kv2 => fst kv1 = fst kv2 /\ same_info_value (snd kv1) (snd kv2))
    (info c1) (info c2).

Definition same_option (o1 o2 : option Q) : Prop :=
  match o1, o2 with
  | Some q1, Some q2 => q1 == q2
  | None, None => True
  | _, _ => False
  end.

End cell_vocabulary.

(** ** Runs of the utilities *)

Section utility_vocabulary.
Import sim_utils.
Context {JobDefinition PreJob : Type}.
Variable fault : list (@Event JobDefinition) -> @Call JobDefinition -> option Exn.
Variable upload_reply : Data -> JobDefinition -> PreJob.

Local Abbreviation M := (@sim_utils.M JobDefinition).
Local Abbreviation World := (@sim_utils.World JobDefinition).
Local Abbreviation Event := (@sim_utils.Event JobDefinition).
Local Abbreviation Call := (@sim_utils.Call JobDefinition).

Definition succeeded (ev : Event) : Prop := snd ev = None.

(** The error in flight after a call failed with [e0] and the calls [tl]
    were made on the way out: the error of the last call that failed. *)
Fixpoint last_error (e0 : Exn) (tl : list Event) : Exn :=
  match tl with
  | [] => e0
  | (_, Some e) :: tl' => last_error e tl'
  | (_, None) :: tl' => last_error e0 tl'
  end.

(** A computation propagates errors when each run appends to the trace
    - only calls that succeeded, if it returns a value;
    - calls that succeeded, then one call that failed, then the calls
      [cleanup] allows, if it raises; what it raises is the error of the last
      call that failed.
    So a failed call is never followed by another attempt, and no error is
    swallowed, replaced by one of the function's own, or invented. *)
Definition propagates {A : Type} (cleanup : list Event -> Prop)
    (m : M A) : Prop :=
  forall w, exists evs,
    trace (snd (m w)) = trace w ++ evs /\
    match fst (m w) with
    | Ok _ => Forall succeeded evs
    | Raise e =>
        exists oks c e0 tl,
          evs = oks ++ (c, Some e0) :: tl /\ Forall succeeded oks /\
          cleanup tl /\ e = last_error e0 tl
    end.

(** Nothing at all happens after the failure. *)
Definition no_cleanup (tl : list Event) : Prop := tl = [].

(** At most the archive [p] is closed after the failure. *)
Definition closes_archive (p : Path) (tl : list Event) : Prop :=
  tl = [] \/ exists outcome, tl = [(ZipFile_close p, outcome)].

(** The path of the temporary archive and its place on a disk. *)
Definition zip_path : Path :=
  {| absolute := false; parts := ["simulation_zipfile.zip"] |}.

Definition zip_key (d : Disk) : list string := cwd d ++ ["simulation_zipfile.zip"].

(** The calls made while the archive is written. *)
Definition zip_call (c : Call) : Prop :=
  match c with
  | ZipFile_open _ | ZipFile_write _ _ _ | ZipFile_close _
  | Path_rglob _ | Path_is_file _ | Path_relative_to _ _ => True
  | _ => False
  end.

(** Every call of a computation is one of [P]. *)
Definition calls_only {A : Type} (P : Call -> Prop) (m : M A) : Prop :=
  forall w, exists evs,
    trace (snd (m w)) = trace w ++ evs /\ Forall (fun ev => P (fst ev)) evs.

(** The paths the scan of directory [base] yields on the files [fs]. *)
Definition scanned (fs : gmap (list string) Node) (base : list string)
  : list (list string) :=
  match fs !! base with
  | Some Dir =>
      filter (fun k => base `prefix_of` k /\ k <> base) (map fst (map_to_list fs))
  | _ => []
  end.

(** What one scanned path adds to the archive: a member if it is a regular
    file, named by the path below [base]. *)
Definition member_of (fs : gmap (list string) Node) (base k : list string)
  : list (list string * Data) :=
  match fs !! k with
  | Some (File data) => [(drop (List.length base) k, data)]
  | _ => []
  end.

Definition archived (fs : gmap (list string) Node) (base : list string)
  : list (list string * Data) :=
  flat_map (member_of fs base) (scanned fs base).

(** The body of the [with] block of [upload_simulation_dir]. *)
Definition zip_one (input_dir zf file : Path) : M unit :=
  b ← is_file fault file;
  if b : bool then
    arcname ← relative_to fault file input_dir;
    ZipFile_write_ fault zf file arcname
  else mret tt.

Definition zip_all (input_dir zf : Path) : M unit :=
  files ← rglob_star fault input_dir;
  for_each files (zip_one input_dir zf).

(** The path object the scan yields for the absolute path [k]. *)
Definition yielded (input_dir : Path) (base k : list string) : Path :=
  {| absolute := absolute input_dir;
     parts := parts input_dir ++ drop (List.length base) k |}.

(** The four ways a run of [upload_simulation_dir] can go. *)
Inductive upload_run (input_dir : Path) (job_definition : JobDefinition)
    (w : World) (evs : list Event) (r : Res PreJob) (d' : Disk) : Prop :=
| zip_failed (e : Exn) :
    r = Raise e ->
    Forall (fun ev => zip_call (fst ev)) evs ->
    upload_run input_dir job_definition w evs r d'
| upload_failed (e : Exn) (evs1 : list Event) :
    let d := disk w in
    let members :=
      archived (<[zip_key d := File Unfinished]> (files d)) (resolve d input_dir) in
    r = Raise e ->
    Forall (fun ev => zip_call (fst ev)) evs1 ->
    evs = evs1 ++ [(sim_upload_simulation zip_path (Some (Archive members))
                      job_definition, Some e)] ->
    cwd d' = cwd d ->
    files d' = <[zip_key d := File (Archive members)]> (files d) ->
    upload_run input_dir job_definition w evs r d'
| unlink_failed (e : Exn) (evs1 : list Event) :
    let d := disk w in
    let members :=
      archived (<[zip_key d := File Unfinished]> (files d)) (resolve d input_dir) in
    r = Raise e ->
    Forall (fun ev => zip_call (fst ev)) evs1 ->
    evs = evs1 ++ [(sim_upload_simulation zip_path (Some (Archive members))
                      job_definition, None);
                   (Path_unlink zip_path, Some e)] ->
    cwd d' = cwd d ->
    files d' = <[zip_key d := File (Archive members)]> (files d) ->
    upload_run input_dir job_definition w evs r d'
| uploaded (evs1 : list Event) :
    let d := disk w in
    let members :=
      archived (<[zip_key d := File Unfinished]> (files d)) (resolve d input_dir) in
    r = Ok (upload_reply (Archive members) job_definition) ->
    Forall (fun ev => zip_call (fst ev)) evs1 ->
    evs = evs1 ++ [(sim_upload_simulation zip_path (Some (Archive members))
                      job_definition, None);
                   (Path_unlink zip_path, None)] ->
    cwd d' = cwd d ->
    files d' = delete (zip_key d) (files d) ->
    upload_run input_dir job_definition w evs r d'.


End utility_vocabulary.

(** ** A concrete disk and environment *)

Section demo.
Import sim_utils.

(** A working directory [/work] holding one file, and an input directory
    [/work/in] with a file and a sub-directory with a file. *)
Definition demo_disk : Disk :=
  {| cwd := ["work"];
     files := {[ [] := Dir;
                 ["work"] := Dir;
                 ["work"; "notes.txt"] := File (Raw "notes");
                 ["work"; "in"] := Dir;
                 ["work"; "in"; "mesh.geo"] := File (Raw "geometry");
                 ["work"; "in"; "sub"] := Dir;
                 ["work"; "in"; "sub"; "bc.json"] := File (Raw "boundary") ]};
     open_zips := ∅ |}.

Definition demo_world : @World string := {| disk := demo_disk; trace := [] |}.

(** An environment in which no call fails, one in which the upload fails,
    and a service that answers with the job definition. *)
Definition no_fault (history : list (@Event string)) (c : @Call string)
  : option Exn := None.

Definition network_down (history : list (@Event string)) (c : @Call string)
  : option Exn :=
  match c with
  | sim_upload_simulation _ _ _ =>
      Some {| exn_class := "ConnectionError"; exn_msg := "network unreachable" |}
  | _ => None
  end.

Definition echo_reply (payload : Data) (job_definition : string) : string :=
  job_definition.

(** [Path("in")] and [Path(".")] *)
Definition in_dir : Path := {| absolute := false; parts := ["in"] |}.


(** A finished job with two output files. *)
Definition demo_job : Job :=
  {| job_name := "mim_capacitor"; status_value := "COMPLETED"; exit_code := 0;
     started_at := Some 10; finished_at := Some 135.5;
     requested_cpu := 2; requested_memory_mb := 4096;
     output_size_bytes := 2500000;
     download_urls := Some [("results.csv", "https://a"); ("mesh.msh", "https://b")] |}.

(** An environment in which the call made after [n] others fails, whatever
    it is. *)
Definition fails_after (n : nat) (history : list (@Event string))
    (c : @Call string) : option Exn :=
  if decide (List.length history = n)
  then Some {| exn_class := "OSError"; exn_msg := "input/output error" |}
  else None.

(** A mesh file with four named groups, two of them on tag 1, and the cell
    counts of its groups: the group of tag 3 is empty. *)
Definition demo_field_data (msh_path : string) : list (string * (Z * Z)) :=
  [ ("metal5", (1, 3)); ("oxide", (2, 3)); ("topmetal1", (3, 3));
    ("metal5_alias", (1, 3)) ]%Z.

Definition demo_n_cells (m : Mesh) : Z :=
  match m with
  | Subset _ 3 => 0
  | Subset _ _ => 120
  | MeshOf _ => 480
  end.

End demo.

(** ** Further vocabulary: enclosure and separation of rectangles *)

Section enclosure_vocabulary.
Import gf.

(** [outer] reaches exactly [m] beyond [inner] on all four sides. *)
Definition margin_around (m : Q) (inner outer : Ref) : Prop :=
  x_min outer == x_min inner - m /\ x_max outer == x_max inner + m /\
  y_min outer == y_min inner - m /\ y_max outer == y_max inner + m.

(** Two rectangles are at least [g] apart along X or along Y. *)
Definition apart (g : Q) (r r' : Ref) : Prop :=
  x_max r + g <= x_min r' \/ x_max r' + g <= x_min r \/
  y_max r + g <= y_min r' \/ y_max r' + g <= y_min r.

(** [r'] is [r] moved up by [dy]. *)
Definition moved_up (dy : Q) (r r' : Ref) : Prop :=
  layer (cell r') = layer (cell r) /\
  same_point (size (cell r')) (size (cell r)) /\
  x_min r' == x_min r /\ y_min r' == y_min r + dy.

End enclosure_vocabulary.

(** ** Further vocabulary: what a run leaves on the disk *)

Section frame_vocabulary.
Import sim_utils.
Context {JobDefinition : Type}.

(** A computation leaves the working directory and every file other than
    the temporary archive as they are, however it ends. *)
Definition keeps_other_files {A : Type} (m : @sim_utils.M JobDefinition A) : Prop :=
  forall w,
    cwd (disk (snd (m w))) = cwd (disk w) /\
    forall k, k <> zip_key (disk w) ->
      files (disk (snd (m w))) !! k = files (disk w) !! k.

(** The environment in which no call fails. *)
Definition quiet (history : list (@sim_utils.Event JobDefinition))
    (c : @sim_utils.Call JobDefinition) : option Exn := None.

(** A computation returns [a] after making exactly the calls [calls], in
    this order and each with success, and leaves the disk as it is. *)
Definition runs_as {A : Type} (m : @sim_utils.M JobDefinition A) (a : A)
    (calls : list (@sim_utils.Call JobDefinition)) : Prop :=
  forall w,
    m w = (Ok a, {| disk := disk w;
                    trace := trace w ++ map (fun c => (c, None)) calls |}).

(** The tags of the groups extracted by a list of calls, in order. *)
Definition extracted (calls : list (@sim_utils.Call JobDefinition)) : list Z :=
  flat_map (fun c => match c with
                     | mesh_extract_cells _ gid => [gid]
                     | _ => []
                     end) calls.

(** A call that draws one group: the extraction of its cells, or the
    addition of the extracted cells to the plot. *)
Definition group_call (c : @sim_utils.Call JobDefinition) : Prop :=
  match c with
  | mesh_extract_cells _ _ | plotter_add_mesh (Subset _ _) _ (Some _) => True
  | _ => False
  end.

(** [name] is the name the mesh file gives last for the tag [t]. *)
Definition last_name (field_data : list (string * (Z * Z))) (t : Z)
    (name : string) : Prop :=
  exists before dim after,
    field_data = before ++ (name, (t, dim)) :: after /\
    Forall (fun item => fst (snd item) <> t) after.

(** The calls that end [plot_mesh_pv]. *)
Definition finish (interactive : bool) (output : string)
  : list (@sim_utils.Call JobDefinition) :=
  if interactive then [plotter_show]
  else [plotter_screenshot output; plotter_close;
        IPython_Image output; IPython_display output].

End frame_vocabulary.

(** ** Further vocabulary: the groups drawn by plot_mesh_pv *)

Section plot_vocabulary.
Import sim_utils.
Context {JobDefinition : Type}.

(** The dictionary from tag to name built from the [field_data] of a mesh
    file. *)
Definition group_map_of (field_data : list (string * (Z * Z))) : list (Z * string) :=
  fold_left (fun d item => py.dict_set d (fst (snd item)) (fst item)) field_data [].

(** The tags whose name contains one of the patterns, in the order of the
    dictionary. *)
Definition shown_ids (group_map : list (Z * string)) (show_groups : list string)
  : list Z :=
  map fst (filter (fun item => existsb (contains (snd item)) show_groups = true)
             group_map).

Definition palette : list string :=
  ["red"; "blue"; "green"; "orange"; "purple"; "cyan"].

(** The calls of one round of the loop over the tags: [p] is the position
    of the tag among the shown ones, and the tag. *)
Definition draw_group (n_cells_of : Mesh -> Z) (mesh : Mesh)
    (group_map : list (Z * string)) (p : nat * Z)
  : list (@sim_utils.Call JobDefinition) :=
  mesh_extract_cells mesh (snd p) ::
  if (0 <? n_cells_of (Subset mesh (snd p)))%Z
  then [plotter_add_mesh (Subset mesh (snd p))
          (nth (fst p mod List.length palette) palette EmptyString)
          (Some (default (pretty (snd p)) (py.dict_get group_map (snd p))))]
  else [].

End plot_vocabulary.


(** ** Further vocabulary: the inputs on which a call returns *)

Section validity_vocabulary.




End validity_vocabulary.

(** * Properties of the cell generators *)

Section loops.
Import gf.

Lemma range_length (n : Z) : List.length (py.range n) = Z.to_nat n.
Proof. unfold py.range. by rewrite length_map, length_seq. Qed.

Lemma range_spec (n i : Z) : In i (py.range n) <-> (0 <= i < n)%Z.
Proof.
  unfold py.range. rewrite in_map_iff. split.
  - intros (k & <- & Hk). apply in_seq in Hk. lia.
  - intros Hi. exists (Z.to_nat i). split; [lia|]. apply in_seq. lia.
Qed.

(** A loop whose body only appends references appends the concatenation
    of what each round appends, and leaves ports and info alone. *)
Lemma fold_left_appends {A : Type} (xs : list A) (body : A -> Component -> Component)
    (g : A -> list Ref) (c : Component) :
  (forall x c, body x c =
     {| refs := refs c ++ g x; ports := ports c; info := info c |}) ->
  fold_left (fun acc x => body x acc) xs c =
    {| refs := refs c ++ flat_map g xs; ports := ports c; info := info c |}.
Proof.
  intros Hbody. revert c. induction xs as [|x xs IH]; intros c; simpl.
  - rewrite app_nil_r. by destruct c.
  - rewrite IH, Hbody. simpl. by rewrite <- app_assoc.
Qed.

Lemma for_range_appends (n : Z) (body : Z -> Component -> Component)
    (g : Z -> list Ref) (c : Component) :
  (forall i c, body i c =
     {| refs := refs c ++ g i; ports := ports c; info := info c |}) ->
  py.for_range n body c =
    {| refs := refs c ++ flat_map g (py.range n); ports := ports c; info := info c |}.
Proof. apply fold_left_appends. Qed.

Lemma flat_map_length_const {A B : Type} (f : A -> list B) (k : nat) (xs : list A) :
  (forall x, List.length (f x) = k) ->
  List.length (flat_map f xs) = (List.length xs * k)%nat.
Proof.
  intros Hf. induction xs as [|x xs IH]; simpl; [done|].
  rewrite length_app, Hf, IH. lia.
Qed.

End loops.

(** ** Grid snapping *)

Lemma round_near (x : Q) :
  - (1 # 2) <= inject_Z (py.round x) - x <= 1 # 2.
Proof.
  unfold py.round.
  pose proof (Qfloor_le x) as Hlo. pose proof (Qlt_floor x) as Hhi.
  rewrite inject_Z_plus in Hhi. change (inject_Z 1) with 1 in Hhi.
  destruct (Qcompare (x - inject_Z (Qfloor x)) (1 # 2)) eqn:Hc.
  - apply Qeq_alt in Hc. destruct (Z.even (Qfloor x)).
    + lra.
    + rewrite inject_Z_plus. change (inject_Z 1) with 1. lra.
  - apply Qlt_alt in Hc. lra.
  - apply Qgt_alt in Hc. rewrite inject_Z_plus. change (inject_Z 1) with 1. lra.
Qed.


(** The snapped value is a whole number of grid steps, at most half a step
    away from the value given. *)
Lemma grid_snap_spec (x : Q) :
  (exists k : Z, grid_snap x == inject_Z k * 0.005) /\
  - 0.0025 <= grid_snap x - x <= 0.0025.
Proof.
  split; [by exists (py.round (x / 0.005))|].
  unfold grid_snap. pose proof (round_near (x / 0.005)) as H.
  set (r := inject_Z (py.round (x / 0.005))) in *.
  assert (x / 0.005 == x * 200) as E by (field; done).
  rewrite E in H. lra.
Qed.


(** ** cmim: the component in closed form *)

Section cmim_closed_form.
Import gf capacitors.

Variables (width length : Q) (capacitance : option Q) (model : string).
Variables (layer_metal5 layer_mim layer_topmetal1 layer_vmim : LayerSpec).

Lemma cmim_closed_form :
  let w := grid_snap width in
  let l := grid_snap length in
  let mx := -0.004 * width + 0.625 in
  cmim width length capacitance model
       layer_metal5 layer_mim layer_topmetal1 layer_vmim =
  {| refs :=
       [ placed w l layer_mim 0.0 0.0;
         placed (w + 2 * 0.6) (l + 2 * 0.6) layer_metal5 (- 0.6) (- 0.6);
         placed (w - 2 * mx) (l - 2 * 0.34) layer_topmetal1 mx 0.34 ]
       ++ vmim_tiles layer_vmim (n_tiles w) (n_tiles l);
     ports :=
       [ {| name := "P1";
            center := (- 0.6 + (w + 2 * 0.6) / 2.0, - 0.6 + (l + 2 * 0.6) / 2.0);
            gf.width := py.min (w + 2 * 0.6) (l + 2 * 0.6);
            orientation := 180;
            port_layer := layer_metal5;
            port_type := "electrical" |};
         {| name := "P2";
            center := (0.34 + (w - 2 * mx) / 2.0, 0.34 + (l - 2 * 0.34) / 2.0);
            gf.width := py.min (w - 2 * mx) (l - 2 * 0.34);
            orientation := 0;
            port_layer := layer_topmetal1;
            port_type := "electrical" |} ];
     info :=
       [ ("model", IStr model);
         ("capacitance",
          IFloat (match capacitance with
                  | None => w * l * 1.54
                  | Some given => given
                  end));
         ("mim_length", IFloat l);
         ("mim_width", IFloat w);
         ("vmim_tile_length", IFloat 0.42);
         ("n_vmim_tiles", IPair (n_tiles w) (n_tiles l)) ] |}.
Proof.
  intros w l mx. unfold cmim. cbv zeta.
  rewrite (for_range_appends _ _
             (fun ix => flat_map (fun iy => [vmim_tile layer_vmim ix iy])
                          (py.range (n_tiles l)))).
  - reflexivity.
  - intros ix c.
    rewrite (for_range_appends _ _ (fun iy => [vmim_tile layer_vmim ix iy])).
    + reflexivity.
    + reflexivity.
Qed.

End cmim_closed_form.

(** ** rfcmim: the component in closed form *)

Section rfcmim_closed_form.
Import gf capacitors.

Variables (width length : Q) (capacitance : option Q) (model : string).
Variables (layer_activ layer_mim layer_metal1 layer_metal1_pin layer_metal5
           layer_metal5_pin layer_topmetal1 layer_topmetal1_pin layer_vmim
           layer_cont layer_psd layer_pwellblock : LayerSpec).
Variable layers_no_qrc : list LayerSpec.

Lemma rfcmim_closed_form :
  let w := grid_snap width in
  let l := grid_snap length in
  rfcmim width length capacitance model
    layer_activ layer_mim layer_metal1 layer_metal1_pin layer_metal5
    layer_metal5_pin layer_topmetal1 layer_topmetal1_pin layer_vmim
    layer_cont layer_psd layer_pwellblock layers_no_qrc =
  {| refs :=
       [ placed l w layer_mim 0 0;
         placed (2 * 3 + l) (2 * 3 + w) layer_pwellblock (- 3) (- 3) ]
       ++ flat_map (fun layer =>
            [placed (2 * (3 + 2.6) + l) (2 * (3 + 2.6) + w) layer
               (- 3 - 2.6) (- 3 - 2.6)]) layers_no_qrc
       ++ [ placed (2 * 0.6 + l) (2 * 0.6 + w) layer_metal5 (- 0.6) (- 0.6) ];
     ports := [];
     info := [] |}.
Proof.
  intros w l. unfold rfcmim. cbv zeta.
  rewrite (fold_left_appends _ _
             (fun layer => [placed (2 * (3 + 2.6) + l) (2 * (3 + 2.6) + w) layer
                              (- 3 - 2.6) (- 3 - 2.6)])).
  - reflexivity.
  - reflexivity.
Qed.

End rfcmim_closed_form.

(** ** C1: the stored capacitance *)

Section cmim_plates_and_ports.
Import gf capacitors.

Variables (width length : Q) (model : string).
Variables (layer_metal5 layer_mim layer_topmetal1 layer_vmim : LayerSpec).

(** C1.  With [capacitance=None], the ["capacitance"] entry of the info of
    the component [cmim] returns is the area of the MIM plate, the
    grid-snapped width times the grid-snapped length, times 1.54. *)
Theorem cmim_capacitance_is_area_times_density :
  let c := cmim width length None model
             layer_metal5 layer_mim layer_topmetal1 layer_vmim in
  exists mim rest,
    refs c = mim :: rest /\
    layer (cell mim) = layer_mim /\
    x_size mim = grid_snap width /\
    y_size mim = grid_snap length /\
    area mim = grid_snap width * grid_snap length /\
    py.dict_get (info c) "capacitance" = Some (IFloat (area mim * 1.54)).
Proof.
  intros c. subst c. rewrite cmim_closed_form. cbv zeta.
  eexists _, _. repeat split.
Qed.

(** The P1 port sits at the centre of the Metal5 plate, whatever the
    arguments. *)
Lemma cmim_P1_at_metal5_center (capacitance : option Q) :
  let c := cmim width length capacitance model
             layer_metal5 layer_mim layer_topmetal1 layer_vmim in
  exists mim m5 rest p1 p2,
    refs c = mim :: m5 :: rest /\ ports c = [p1; p2] /\
    name p1 = "P1" /\ port_layer p1 = layer_metal5 /\
    layer (cell m5) = layer_metal5 /\
    fst (center p1) == x_center m5 /\ snd (center p1) == y_center m5.
Proof.
  intros c. subst c. rewrite cmim_closed_form. cbv zeta.
  eexists _, _, _, _, _. split; [reflexivity|]. split; [reflexivity|].
  repeat split; unfold x_center, y_center, x_max, y_max, x_min, y_min; simpl;
    field.
Qed.

(** The P2 port is at the height of the centre of the TopMetal1 plate, but
    in X it is off the centre by [0.34 - (-0.004 * width + 0.625)]: the
    plate is placed at the width-dependent margin, the port at the fixed
    one. *)
Lemma cmim_P2_offset (capacitance : option Q) :
  let c := cmim width length capacitance model
             layer_metal5 layer_mim layer_topmetal1 layer_vmim in
  exists mim m5 tm1 rest p1 p2,
    refs c = mim :: m5 :: tm1 :: rest /\ ports c = [p1; p2] /\
    name p2 = "P2" /\ port_layer p2 = layer_topmetal1 /\
    layer (cell tm1) = layer_topmetal1 /\
    snd (center p2) == y_center tm1 /\
    fst (center p2) - x_center tm1 == 0.004 * width - 0.285.
Proof.
  intros c. subst c. rewrite cmim_closed_form. cbv zeta.
  eexists _, _, _, _, _, _. split; [reflexivity|]. split; [reflexivity|].
  repeat split; unfold x_center, y_center, x_max, y_max, x_min, y_min; simpl;
    field.
Qed.

End cmim_plates_and_ports.

(** C3.  At the default arguments the P2 port of [cmim] is not at the centre
    of the TopMetal1 plate: the plate spans X from 0.59704 to 6.39296, centre
    3.495, and the port is at X = 3.23796. *)
Theorem cmim_P2_off_center_at_defaults :
  let c := capacitors.cmim_default 6.99 6.99 None in
  exists tm1 p2,
    gf.refs c !! 2%nat = Some tm1 /\
    gf.port_named c "P2" = Some p2 /\
    gf.layer (gf.cell tm1) = "TopMetal1drawing" /\
    gf.port_layer p2 = "TopMetal1drawing" /\
    gf.x_min tm1 == 0.59704 /\ gf.x_max tm1 == 6.39296 /\
    gf.x_center tm1 == 3.495 /\
    fst (gf.center p2) == 3.23796 /\
    snd (gf.center p2) == gf.y_center tm1 /\
    ~ fst (gf.center p2) == gf.x_center tm1.
Proof.
  intros c. subst c. unfold capacitors.cmim_default. rewrite cmim_closed_form.
  cbv zeta. eexists _, _. split; [reflexivity|]. split; [reflexivity|].
  repeat split; try reflexivity. by vm_compute.
Qed.

(** ** C4: the plate sizes *)

Section plate_sizes.
Import gf capacitors.

(** In [rfcmim] a 7 by 4 capacitor gets a MIM rectangle 4 wide and 7 high
    and a Metal5 rectangle 5.2 wide and 8.2 high, not 7 by 4 and 8.2 by 5.2. *)
Lemma rfcmim_plates_not_width_by_length :
  let c := rfcmim_default 7 4 None in
  exists mim mid m5,
    refs c = mim :: mid ++ [m5] /\
    layer (cell mim) = "MIMdrawing" /\ layer (cell m5) = "Metal5drawing" /\
    x_size mim == 4 /\ y_size mim == 7 /\
    x_size m5 == 5.2 /\ y_size m5 == 8.2 /\
    ~ plates_width_by_length mim m5 7 4.
Proof.
  intros c. subst c. unfold rfcmim_default. rewrite rfcmim_closed_form.
  cbv zeta. eexists _, (_ :: _), _. split; [reflexivity|].
  repeat split; try reflexivity.
  intros (H & _). vm_compute in H. discriminate H.
Qed.

Variables (width length : Q) (capacitance : option Q) (model : string).
Variables (layer_activ layer_mim layer_metal1 layer_metal1_pin layer_metal5
           layer_metal5_pin layer_topmetal1 layer_topmetal1_pin layer_vmim
           layer_cont layer_psd layer_pwellblock : LayerSpec).
Variable layers_no_qrc : list LayerSpec.

(** C4, amended.  In [cmim] the MIM rectangle is width by length and the
    Metal5 rectangle is (width + 1.2) by (length + 1.2); in [rfcmim] the two
    axes are exchanged, the MIM rectangle is length by width and the Metal5
    rectangle (length + 1.2) by (width + 1.2).  In both the Metal5 rectangle
    reaches 0.6 beyond the MIM rectangle on each side. *)
Theorem metal5_plate_sizes :
  (let c := cmim width length capacitance model
              layer_metal5 layer_mim layer_topmetal1 layer_vmim in
   exists mim m5 rest,
     refs c = mim :: m5 :: rest /\
     layer (cell mim) = layer_mim /\ layer (cell m5) = layer_metal5 /\
     plates_width_by_length mim m5 width length /\
     margin_all_round mim m5) /\
  (let c := rfcmim width length capacitance model
              layer_activ layer_mim layer_metal1 layer_metal1_pin layer_metal5
              layer_metal5_pin layer_topmetal1 layer_topmetal1_pin layer_vmim
              layer_cont layer_psd layer_pwellblock layers_no_qrc in
   exists mim mid m5,
     refs c = mim :: mid ++ [m5] /\
     layer (cell mim) = layer_mim /\ layer (cell m5) = layer_metal5 /\
     plates_width_by_length mim m5 length width /\
     margin_all_round mim m5).
Proof.
  split; intros c; subst c.
  - rewrite cmim_closed_form. cbv zeta.
    eexists _, _, _. split; [reflexivity|].
    unfold plates_width_by_length, margin_all_round,
      x_max, y_max, x_min, y_min, x_size, y_size. simpl.
    repeat split; try reflexivity; lra.
  - rewrite rfcmim_closed_form. cbv zeta.
    eexists _, (_ :: _), _. split; [reflexivity|].
    unfold plates_width_by_length, margin_all_round,
      x_max, y_max, x_min, y_min, x_size, y_size. simpl.
    repeat split; try reflexivity; lra.
Qed.

End plate_sizes.

(** ** C8: the Vmim tiles *)

Section vmim_tiles_facts.
Import gf capacitors.





Lemma vmim_tiles_elem (ly : LayerSpec) (nx ny : Z) (t : Ref) :
  In t (vmim_tiles ly nx ny) <->
  exists ix iy, (0 <= ix < nx)%Z /\ (0 <= iy < ny)%Z /\ t = vmim_tile ly ix iy.
Proof.
  unfold vmim_tiles. rewrite in_flat_map. split.
  - intros (ix & Hix & Ht). apply in_flat_map in Ht as (iy & Hiy & Ht).
    apply range_spec in Hix, Hiy. destruct Ht as [<-|[]]. eauto.
  - intros (ix & iy & Hix & Hiy & ->). exists ix. split; [by apply range_spec|].
    apply in_flat_map. exists iy. split; [by apply range_spec|]. by left.
Qed.


Variables (width length : Q) (capacitance : option Q) (model : string).
Variables (layer_metal5 layer_mim layer_topmetal1 layer_vmim : LayerSpec).


End vmim_tiles_facts.



(** ** C9: npn13G2 *)

Section npn13G2_facts.
Import gf bjt_transistors.

Variables (STI baspolyx bipwinx bipwiny empolyx empolyy : Q).
Variables (emitter_length emitter_width : Q) (Nx Ny : Z) (text : string).
Variables (CMetY1 CMetY2 : Q) (extra_argument_for_naming : option string).

Lemma npn13G2_closed_form :
  npn13G2 STI baspolyx bipwinx bipwiny empolyx empolyy emitter_length
    emitter_width Nx Ny text CMetY1 CMetY2 extra_argument_for_naming =
  {| refs := via_array bipwiny empolyy Nx; ports := []; info := [] |}.
Proof.
  unfold npn13G2. cbv zeta.
  rewrite (for_range_appends _ _
             (fun ix => flat_map (via_pair bipwiny empolyy ix) (py.range 4))).
  - reflexivity.
  - intros ix c.
    rewrite (for_range_appends _ _ (via_pair bipwiny empolyy ix)).
    + reflexivity.
    + intros iy c'. unfold add_ref_moved, via_pair, placed, move. simpl.
      by rewrite <- app_assoc.
Qed.

Lemma via_array_length (n : Z) :
  List.length (via_array bipwiny empolyy n) = (Z.to_nat n * 8)%nat.
Proof.
  unfold via_array. rewrite (flat_map_length_const _ 8%nat).
  - by rewrite range_length.
  - intros ix. by rewrite (flat_map_length_const _ 2%nat).
Qed.

Lemma via_array_elem (n : Z) (r : Ref) :
  In r (via_array bipwiny empolyy n) <->
  exists ix iy, (0 <= ix < n)%Z /\ (0 <= iy < 4)%Z /\
    In r (via_pair bipwiny empolyy ix iy).
Proof.
  unfold via_array. rewrite in_flat_map. split.
  - intros (ix & Hix & Hr). apply in_flat_map in Hr as (iy & Hiy & Hr).
    apply range_spec in Hix, Hiy. eauto.
  - intros (ix & iy & Hix & Hiy & Hr). exists ix. split; [by apply range_spec|].
    apply in_flat_map. exists iy. split; [by apply range_spec|]. done.
Qed.

(** C9.  For [Nx >= 1] the component consists of exactly [8 * Nx]
    rectangles on Via1, each 0.19 by 0.19, two for every column step
    [ix < Nx] and row index [iy < 4], at X = 1.85 ix - 0.3 and
    1.85 ix + 0.11 and Y = 0.23 + bipwiny + empolyy - 0.41 iy; it has no
    ports and no info.  It is the same component whatever the values of
    [STI], [baspolyx], [bipwinx], [empolyx], [emitter_length],
    [emitter_width], [Ny], [text], [CMetY1], [CMetY2] and the naming
    argument. *)
Theorem npn13G2_via1_array :
  (1 <= Nx)%Z ->
  let c := npn13G2 STI baspolyx bipwinx bipwiny empolyx empolyy emitter_length
             emitter_width Nx Ny text CMetY1 CMetY2 extra_argument_for_naming in
  Z.of_nat (List.length (refs c)) = (8 * Nx)%Z /\
  ports c = [] /\ info c = [] /\
  (forall r, In r (refs c) ->
     layer (cell r) = "Via1drawing" /\ centered (cell r) = false /\
     size (cell r) = (0.19, 0.19)) /\
  (forall r, In r (refs c) <->
     exists ix iy, (0 <= ix < Nx)%Z /\ (0 <= iy < 4)%Z /\
       In r (via_pair bipwiny empolyy ix iy)) /\
  (forall ix iy,
     exists a b, via_pair bipwiny empolyy ix iy = [a; b] /\
       x_min a == 1.85 * inject_Z ix - 0.3 /\
       x_min b == 1.85 * inject_Z ix + 0.11 /\
       y_min a == 0.23 + bipwiny + empolyy - 0.41 * inject_Z iy /\
       y_min b == y_min a) /\
  (forall STI' baspolyx' bipwinx' empolyx' emitter_length' emitter_width'
          Ny' text' CMetY1' CMetY2' extra_argument_for_naming',
     npn13G2 STI' baspolyx' bipwinx' bipwiny empolyx' empolyy emitter_length'
       emitter_width' Nx Ny' text' CMetY1' CMetY2' extra_argument_for_naming'
     = c).
Proof.
  intros HNx c. subst c. rewrite npn13G2_closed_form. simpl.
  split; [rewrite via_array_length; lia|].
  split; [done|]. split; [done|].
  split.
  { intros r Hr. apply via_array_elem in Hr as (ix & iy & _ & _ & Hr).
    destruct Hr as [<-|[<-|[]]]; done. }
  split; [intros r; apply via_array_elem|].
  split.
  { intros ix iy. eexists _, _. split; [reflexivity|].
    unfold x_min, y_min. simpl. repeat split; field. }
  intros. apply npn13G2_closed_form.
Qed.

End npn13G2_facts.

(** C9 at the default arguments: eight vias. *)
Lemma npn13G2_via1_array_witness :
  (1 <= 1)%Z /\
  Z.of_nat (List.length (gf.refs bjt_transistors.npn13G2_default)) = 8%Z.
Proof.
  split; [lia|].
  exact (proj1 (npn13G2_via1_array 0.44 0.3 0.07 0.1 0.15 0.18 0.9 0.7 1 1
                  "npn13G2" 0 0 None ltac:(lia))).
Defined.

(** ** The generators respect the value of their numeric arguments

    Two floats are the same value when they are the same number, whatever
    fraction represents them; two components are the same when they hold the
    same references, ports and info in the same order, numbers compared by
    value. *)

Section same_component.
Import gf.

Lemma round_same (x y : Q) : x == y -> py.round x = py.round y.
Proof.
  intros E. unfold py.round. rewrite (Qfloor_comp _ _ E).
  assert (x - inject_Z (Qfloor y) == y - inject_Z (Qfloor y)) as E' by lra.
  by rewrite (Qcompare_comp _ _ E' (1 # 2) (1 # 2) (Qeq_refl _)).
Qed.

Lemma grid_snap_same (x y : Q) : x == y -> grid_snap x == grid_snap y.
Proof.
  intros E. unfold grid_snap. rewrite (round_same (x / 0.005) (y / 0.005)); [done|].
  by rewrite E.
Qed.

Lemma n_tiles_same (x y : Q) : x == y -> n_tiles x = n_tiles y.
Proof.
  intros E. unfold n_tiles, py.floor. f_equal. apply Qfloor_comp. by rewrite E.
Qed.

Lemma min_same (a a' b b' : Q) : a == a' -> b == b' -> py.min a b == py.min a' b'.
Proof.
  intros Ea Eb. unfold py.min.
  destruct (Qlt_le_dec b a), (Qlt_le_dec b' a'); lra.
Qed.

Lemma same_ref_refl (r : Ref) : same_ref r r.
Proof. by repeat split. Qed.

Lemma same_refs_refl (rs : list Ref) : Forall2 same_ref rs rs.
Proof. induction rs; constructor; [apply same_ref_refl|done]. Qed.

Lemma placed_same (sx sx' sy sy' : Q) (ly : LayerSpec) (x x' y y' : Q) :
  sx == sx' -> sy == sy' -> x == x' -> y == y' ->
  same_ref (placed sx sy ly x y) (placed sx' sy' ly x' y').
Proof. intros. repeat split; simpl; lra. Qed.

Lemma Forall2_flat_map_same {A B : Type} (R : B -> B -> Prop)
    (f g : A -> list B) (xs : list A) :
  (forall x, Forall2 R (f x) (g x)) ->
  Forall2 R (flat_map f xs) (flat_map g xs).
Proof.
  intros Hfg. induction xs as [|x xs IH]; cbn [flat_map]; [constructor|].
  by apply Forall2_app.
Qed.

Lemma via_array_same (b b' e e' : Q) (n : Z) :
  b == b' -> e == e' -> Forall2 same_ref (via_array b e n) (via_array b' e' n).
Proof.
  intros Eb Ee. unfold via_array.
  apply Forall2_flat_map_same. intros ix.
  apply Forall2_flat_map_same. intros iy. unfold via_pair. cbv zeta.
  constructor; [apply placed_same; try reflexivity; by rewrite Eb, Ee|].
  constructor; [apply placed_same; try reflexivity; by rewrite Eb, Ee|].
  constructor.
Qed.

End same_component.

Section determinism.
Import gf capacitors bjt_transistors.

(* capacitors *)
Variables (width width' length length' : Q) (capacitance capacitance' : option Q).
Variables (model : string).
Variables (layer_activ layer_mim layer_metal1 layer_metal1_pin layer_metal5
           layer_metal5_pin layer_topmetal1 layer_topmetal1_pin layer_vmim
           layer_cont layer_psd layer_pwellblock : LayerSpec).
Variable layers_no_qrc : list LayerSpec.
(* npn13G2 *)
Variables (STI STI' baspolyx baspolyx' bipwinx bipwinx' bipwiny bipwiny' : Q).
Variables (empolyx empolyx' empolyy empolyy' : Q).
Variables (emitter_length emitter_length' emitter_width emitter_width' : Q).
Variables (Nx Ny : Z) (text : string) (CMetY1 CMetY1' CMetY2 CMetY2' : Q).
Variable extra_argument_for_naming : option string.

Hypothesis same_width : width == width'.
Hypothesis same_length : length == length'.
Hypothesis same_capacitance : same_option capacitance capacitance'.

Lemma cmim_same :
  same_component
    (cmim width length capacitance model
       layer_metal5 layer_mim layer_topmetal1 layer_vmim)
    (cmim width' length' capacitance' model
       layer_metal5 layer_mim layer_topmetal1 layer_vmim).
Proof using same_width same_length same_capacitance.
  rewrite !cmim_closed_form. cbv zeta.
  pose proof (grid_snap_same _ _ same_width) as Ew.
  pose proof (grid_snap_same _ _ same_length) as El.
  rewrite <- (n_tiles_same _ _ Ew), <- (n_tiles_same _ _ El).
  set (w := grid_snap width) in *. set (w' := grid_snap width') in *.
  set (l := grid_snap length) in *. set (l' := grid_snap length') in *.
  split; [|split]; cbn [refs ports info].
  - constructor; [apply placed_same; lra|].
    constructor; [apply placed_same; lra|].
    constructor; [apply placed_same; lra|].
    apply same_refs_refl.
  - constructor; [|constructor; [|constructor]].
    + split; [reflexivity|].
      split; [split; cbn; by rewrite ?Ew, ?El|].
      split; [apply min_same; by rewrite ?Ew, ?El|done].
    + split; [reflexivity|].
      split; [split; cbn; by rewrite ?Ew, ?El, ?same_width|].
      split; [apply min_same; by rewrite ?Ew, ?El, ?same_width|done].
  - repeat (constructor; [split; [reflexivity|]|]); cbn; try done.
    destruct capacitance, capacitance'; cbn in *; try done.
    by rewrite Ew, El.
Qed.

Lemma rfcmim_same :
  same_component
    (rfcmim width length capacitance model
       layer_activ layer_mim layer_metal1 layer_metal1_pin layer_metal5
       layer_metal5_pin layer_topmetal1 layer_topmetal1_pin layer_vmim
       layer_cont layer_psd layer_pwellblock layers_no_qrc)
    (rfcmim width' length' capacitance' model
       layer_activ layer_mim layer_metal1 layer_metal1_pin layer_metal5
       layer_metal5_pin layer_topmetal1 layer_topmetal1_pin layer_vmim
       layer_cont layer_psd layer_pwellblock layers_no_qrc).
Proof using same_width same_length.
  rewrite !rfcmim_closed_form. cbv zeta.
  pose proof (grid_snap_same _ _ same_width) as Ew.
  pose proof (grid_snap_same _ _ same_length) as El.
  set (w := grid_snap width) in *. set (w' := grid_snap width') in *.
  set (l := grid_snap length) in *. set (l' := grid_snap length') in *.
  split; [|split]; cbn [refs ports info]; [|constructor..].
  constructor; [apply placed_same; lra|].
  constructor; [apply placed_same; lra|].
  apply Forall2_app.
  - apply Forall2_flat_map_same. intros layer.
    constructor; [apply placed_same; lra|constructor].
  - constructor; [apply placed_same; lra|constructor].
Qed.

Hypothesis same_bipwiny : bipwiny == bipwiny'.
Hypothesis same_empolyy : empolyy == empolyy'.

Lemma npn13G2_same :
  same_component
    (npn13G2 STI baspolyx bipwinx bipwiny empolyx empolyy emitter_length
       emitter_width Nx Ny text CMetY1 CMetY2 extra_argument_for_naming)
    (npn13G2 STI' baspolyx' bipwinx' bipwiny' empolyx' empolyy' emitter_length'
       emitter_width' Nx Ny text CMetY1' CMetY2' extra_argument_for_naming).
Proof using same_bipwiny same_empolyy.
  rewrite !npn13G2_closed_form.
  split; [|split]; cbn [refs ports info]; [|constructor..].
  by apply via_array_same.
Qed.

End determinism.

(** * Properties of the simulation utilities *)

Section propagation.
Import sim_utils.
Context {JobDefinition : Type}.
Variable fault : list (@Event JobDefinition) -> @Call JobDefinition -> option Exn.

Local Abbreviation M := (@sim_utils.M JobDefinition).
Local Abbreviation World := (@sim_utils.World JobDefinition).
Local Abbreviation Event := (@sim_utils.Event JobDefinition).
Local Abbreviation Call := (@sim_utils.Call JobDefinition).

Lemma bind_unfold {A B : Type} (m : M A) (f : A -> M B) (w : World) :
  (m ≫= f) w =
    match m w with
    | (Ok a, w') => f a w'
    | (Raise e, w') => (Raise e, w')
    end.
Proof. reflexivity. Qed.

Lemma propagates_ret {A : Type} (cleanup : list Event -> Prop) (a : A) :
  propagates cleanup (mret a : M A).
Proof. intros w. exists []. split; [by rewrite app_nil_r|]. constructor. Qed.

Lemma propagates_lib {A : Type} (cleanup : list Event -> Prop) (c : Call)
    (sem : Disk -> Res A * Disk) :
  cleanup [] -> propagates cleanup (lib fault c sem).
Proof.
  intros Hnil w. unfold lib.
  destruct (fault (trace w) c) as [e|].
  - exists [(c, Some e)]. split; [done|]. by exists [], c, e, [].
  - destruct (sem (disk w)) as [[a|e] d].
    + exists [(c, None)]. split; [done|]. by repeat constructor.
    + exists [(c, Some e)]. split; [done|]. by exists [], c, e, [].
Qed.

Lemma propagates_bind {A B : Type} (cleanup : list Event -> Prop)
    (m : M A) (f : A -> M B) :
  propagates cleanup m -> (forall a, propagates cleanup (f a)) ->
  propagates cleanup (m ≫= f).
Proof.
  intros Hm Hf w. rewrite bind_unfold.
  destruct (Hm w) as (evs1 & Htr1 & Hres1).
  destruct (m w) as [[a|e] w1]; simpl in *.
  - destruct (Hf a w1) as (evs2 & Htr2 & Hres2).
    exists (evs1 ++ evs2). split; [by rewrite Htr2, Htr1, app_assoc|].
    destruct (fst (f a w1)) as [b|e].
    + by apply Forall_app.
    + destruct Hres2 as (oks & c & e0 & tl & -> & Hoks & Htl & ->).
      exists (evs1 ++ oks), c, e0, tl. rewrite <- app_assoc.
      split; [done|]. split; [by apply Forall_app|done].
  - by exists evs1.
Qed.

Lemma propagates_mono {A : Type} (P Q : list Event -> Prop) (m : M A) :
  (forall tl, P tl -> Q tl) -> propagates P m -> propagates Q m.
Proof.
  intros HPQ Hm w. destruct (Hm w) as (evs & Htr & Hres).
  exists evs. split; [done|]. destruct (fst (m w)); [done|].
  destruct Hres as (oks & c & e0 & tl & ? & ? & ? & ?).
  exists oks, c, e0, tl. eauto.
Qed.

Lemma propagates_for_each {A : Type} (cleanup : list Event -> Prop)
    (xs : list A) (body : A -> M unit) :
  (forall x, propagates cleanup (body x)) ->
  propagates cleanup (for_each xs body).
Proof.
  intros Hbody. induction xs as [|x xs IH]; simpl.
  - apply propagates_ret.
  - apply propagates_bind; [apply Hbody|]. intros _. apply IH.
Qed.

Lemma propagates_if {A : Type} (cleanup : list Event -> Prop) (b : bool)
    (m1 m2 : M A) :
  propagates cleanup m1 -> propagates cleanup m2 ->
  propagates cleanup (if b then m1 else m2).
Proof. by destruct b. Qed.

(** The [with] block closes the archive on the way out and lets the error
    through; if closing fails too, that error is the one raised. *)
Lemma propagates_with_ZipFile {A : Type} (p : Path) (body : Path -> M A) :
  (forall zf, propagates no_cleanup (body zf)) ->
  propagates (closes_archive p) (with_ZipFile fault p body).
Proof.
  intros Hbody w. unfold with_ZipFile.
  assert (propagates no_cleanup (ZipFile fault p)) as Hopen
    by (by apply propagates_lib).
  destruct (Hopen w) as (evs1 & Htr1 & Hres1).
  destruct (ZipFile fault p w) as [[[]|e] w1]; simpl in *.
  2:{ exists evs1. split; [done|].
      destruct Hres1 as (oks & c & e0 & tl & -> & Hoks & Htl & ->).
      unfold no_cleanup in Htl. subst tl.
      exists oks, c, e0, []. repeat split; try done. by left. }
  destruct (Hbody p w1) as (evs2 & Htr2 & Hres2).
  assert (exists o w3, ZipFile_exit fault p (snd (body p w1)) = (o, w3) /\
            trace w3 = trace (snd (body p w1)) ++
                         [(ZipFile_close p,
                           match o with Ok _ => None | Raise e => Some e end)])
    as (o & w3 & Hexit & Htr3).
  { unfold ZipFile_exit, lib.
    destruct (fault _ _); [by eexists (Raise _), _|].
    destruct (open_zips _ !! _); by eexists (Ok tt), _. }
  destruct (body p w1) as [[a|e] w2]; simpl in *; rewrite Hexit.
  - destruct o as [[]|e']; simpl in *.
    + exists (evs1 ++ evs2 ++ [(ZipFile_close p, None)]).
      split; [by rewrite Htr3, Htr2, Htr1, <- !app_assoc|].
      repeat (apply Forall_app; split); try done. by repeat constructor.
    + exists (evs1 ++ evs2 ++ [(ZipFile_close p, Some e')]).
      split; [by rewrite Htr3, Htr2, Htr1, <- !app_assoc|].
      exists (evs1 ++ evs2), (ZipFile_close p), e', [].
      rewrite <- app_assoc. repeat split; try done.
      * by apply Forall_app.
      * by left.
  - destruct Hres2 as (oks & c & e0 & tl & -> & Hoks & Htl & ->).
    unfold no_cleanup in Htl. subst tl.
    destruct o as [[]|e']; simpl in *.
    + exists (evs1 ++ (oks ++ [(c, Some e0)]) ++ [(ZipFile_close p, None)]).
      split; [by rewrite Htr3, Htr2, Htr1, <- !app_assoc|].
      exists (evs1 ++ oks), c, e0, [(ZipFile_close p, None)].
      rewrite <- !app_assoc. repeat split; try done.
      * by apply Forall_app.
      * right. by eexists.
    + exists (evs1 ++ (oks ++ [(c, Some e0)]) ++ [(ZipFile_close p, Some e')]).
      split; [by rewrite Htr3, Htr2, Htr1, <- !app_assoc|].
      exists (evs1 ++ oks), c, e0, [(ZipFile_close p, Some e')].
      rewrite <- !app_assoc. repeat split; try done.
      * by apply Forall_app.
      * right. by eexists.
Qed.

End propagation.

(** ** Errors of library calls propagate *)

Section error_propagation.
Import sim_utils.
Context {JobDefinition PreJob : Type}.
Variable fault : list (@Event JobDefinition) -> @Call JobDefinition -> option Exn.
Variable upload_reply : Data -> JobDefinition -> PreJob.
Variable field_data_of : string -> list (string * (Z * Z)).
Variable n_cells_of : Mesh -> Z.

Local Abbreviation M := (@sim_utils.M JobDefinition).
Local Abbreviation Event := (@sim_utils.Event JobDefinition).

Lemma propagates_lib_pure {A : Type} (cleanup : list Event -> Prop) c (a : A) :
  cleanup [] -> propagates cleanup (lib_pure fault c a).
Proof. apply propagates_lib. Qed.

Lemma propagates_upload_simulation (cleanup : list Event -> Prop) path jd :
  cleanup [] -> propagates cleanup (upload_simulation fault upload_reply path jd).
Proof. intros Hnil w. unfold upload_simulation. by apply propagates_lib. Qed.

Ltac propagate :=
  repeat first
    [ apply propagates_ret
    | apply propagates_lib_pure; [by (reflexivity || left)]
    | apply propagates_lib; [by (reflexivity || left)]
    | apply propagates_upload_simulation; [by (reflexivity || left)]
    | apply propagates_bind
    | apply propagates_for_each
    | intros ? ].

Lemma upload_simulation_dir_propagates input_dir job_definition :
  propagates
    (closes_archive {| absolute := false; parts := ["simulation_zipfile.zip"] |})
    (upload_simulation_dir fault upload_reply input_dir job_definition).
Proof.
  unfold upload_simulation_dir. apply propagates_bind.
  - apply propagates_with_ZipFile. intros zf.
    unfold rglob_star, is_file, relative_to, ZipFile_write_.
    apply propagates_bind; [propagate|]. intros files.
    apply propagates_for_each. intros file.
    apply propagates_bind; [propagate|]. intros [|]; propagate.
  - intros _. unfold unlink. propagate.
Qed.



End error_propagation.

(** ** Runs of upload_simulation_dir *)

Section upload_runs.
Import sim_utils.
Context {JobDefinition PreJob : Type}.
Variable fault : list (@Event JobDefinition) -> @Call JobDefinition -> option Exn.
Variable upload_reply : Data -> JobDefinition -> PreJob.

Local Abbreviation M := (@sim_utils.M JobDefinition).
Local Abbreviation World := (@sim_utils.World JobDefinition).
Local Abbreviation Event := (@sim_utils.Event JobDefinition).
Local Abbreviation Call := (@sim_utils.Call JobDefinition).

Lemma calls_only_ret {A : Type} (P : Call -> Prop) (a : A) :
  calls_only P (mret a : M A).
Proof. intros w. exists []. split; [by rewrite app_nil_r|constructor]. Qed.

Lemma calls_only_lib {A : Type} (P : Call -> Prop) (c : Call)
    (sem : Disk -> Res A * Disk) :
  P c -> calls_only P (lib fault c sem).
Proof.
  intros Hc w. unfold lib.
  destruct (fault (trace w) c) as [e|]; [|destruct (sem (disk w)) as [[a|e] d]];
    eexists [_]; (split; [done|by repeat constructor]).
Qed.

Lemma calls_only_bind {A B : Type} (P : Call -> Prop) (m : M A) (f : A -> M B) :
  calls_only P m -> (forall a, calls_only P (f a)) -> calls_only P (m ≫= f).
Proof.
  intros Hm Hf w. rewrite bind_unfold.
  destruct (Hm w) as (evs1 & Htr1 & H1).
  destruct (m w) as [[a|e] w1]; simpl in *; [|by exists evs1].
  destruct (Hf a w1) as (evs2 & Htr2 & H2).
  exists (evs1 ++ evs2). split; [by rewrite Htr2, Htr1, app_assoc|].
  by apply Forall_app.
Qed.

Lemma calls_only_for_each {A : Type} (P : Call -> Prop) (xs : list A)
    (body : A -> M unit) :
  (forall x, calls_only P (body x)) -> calls_only P (for_each xs body).
Proof.
  intros Hbody. induction xs as [|x xs IH]; simpl.
  - apply calls_only_ret.
  - apply calls_only_bind; [apply Hbody|]. intros _. apply IH.
Qed.

Lemma calls_only_with_ZipFile {A : Type} (P : Call -> Prop) (p : Path)
    (body : Path -> M A) :
  P (ZipFile_open p) -> P (ZipFile_close p) ->
  (forall zf, calls_only P (body zf)) ->
  calls_only P (with_ZipFile fault p body).
Proof.
  intros Hopen Hclose Hbody w. unfold with_ZipFile.
  assert (calls_only P (ZipFile fault p)) as Ho by (by apply calls_only_lib).
  assert (calls_only P (ZipFile_exit fault p)) as Hc by (by apply calls_only_lib).
  destruct (Ho w) as (evs1 & Htr1 & H1).
  destruct (ZipFile fault p w) as [[[]|e] w1]; simpl in *; [|by exists evs1].
  destruct (Hbody p w1) as (evs2 & Htr2 & H2).
  destruct (Hc (snd (body p w1))) as (evs3 & Htr3 & H3).
  exists (evs1 ++ evs2 ++ evs3).
  split; [|by repeat (apply Forall_app; split)].
  rewrite !app_assoc, <- Htr1, <- Htr2, <- Htr3.
  destruct (body p w1) as [[a|e] w2]; simpl;
    by destruct (ZipFile_exit fault p w2) as [[[]|e'] w3].
Qed.

(** Inversion of successful steps. *)
Lemma bind_Ok {A B : Type} (m : M A) (f : A -> M B) (w w' : World) (b : B) :
  (m ≫= f) w = (Ok b, w') ->
  exists a w1, m w = (Ok a, w1) /\ f a w1 = (Ok b, w').
Proof.
  rewrite bind_unfold. destruct (m w) as [[a|e] w1]; [by eauto|done].
Qed.

Lemma lib_Ok {A : Type} (c : Call) (sem : Disk -> Res A * Disk)
    (w w' : World) (a : A) :
  lib fault c sem w = (Ok a, w') ->
  sem (disk w) = (Ok a, disk w') /\ trace w' = trace w ++ [(c, None)].
Proof.
  unfold lib. destruct (fault (trace w) c); [done|].
  destruct (sem (disk w)) as [[a'|e] d]; [|done].
  by intros [= -> <-].
Qed.

End upload_runs.

Section archive_contents.
Import sim_utils.
Context {JobDefinition PreJob : Type}.
Variable fault : list (@Event JobDefinition) -> @Call JobDefinition -> option Exn.
Variable upload_reply : Data -> JobDefinition -> PreJob.

Local Abbreviation M := (@sim_utils.M JobDefinition).
Local Abbreviation World := (@sim_utils.World JobDefinition).
Local Abbreviation Event := (@sim_utils.Event JobDefinition).
Local Abbreviation Call := (@sim_utils.Call JobDefinition).

Lemma upload_simulation_dir_unfold input_dir job_definition :
  upload_simulation_dir fault upload_reply input_dir job_definition =
  (with_ZipFile fault zip_path (zip_all fault input_dir) ;;
   pre_job ← upload_simulation fault upload_reply zip_path job_definition;
   unlink fault zip_path ;;
   mret pre_job).
Proof. reflexivity. Qed.

Lemma resolve_yielded (d : Disk) (input_dir : Path) (k : list string) :
  resolve d input_dir `prefix_of` k ->
  resolve d (yielded input_dir (resolve d input_dir) k) = k.
Proof.
  intros [rest ->]. unfold yielded, resolve. simpl.
  destruct (absolute input_dir); by rewrite drop_app_length, ?app_assoc.
Qed.

Lemma set_open_zips_same (d : Disk) : set_open_zips d (open_zips d) = d.
Proof. by destruct d. Qed.

(** One round of the loop, when it succeeds, appends the member of the
    path to the open archive and changes nothing else. *)
Lemma zip_one_Ok (input_dir : Path) (k : list string) (w w' : World)
    (ms : list (list string * Data)) :
  let d := disk w in
  let base := resolve d input_dir in
  base `prefix_of` k ->
  open_zips d !! zip_key d = Some ms ->
  zip_one fault input_dir zip_path (yielded input_dir base k) w = (Ok tt, w') ->
  disk w' = set_open_zips d
              (<[zip_key d := ms ++ member_of (files d) base k]> (open_zips d)).
Proof.
  intros d base. subst base d. set (d := disk w).
  intros Hpre Hms Hrun. unfold zip_one in Hrun.
  apply bind_Ok in Hrun as (b & w1 & His & Hrun).
  apply lib_Ok in His as [His _]. fold d in His.
  rewrite (resolve_yielded d input_dir k Hpre) in His.
  unfold member_of.
  destruct (files d !! k) as [[data|]|] eqn:Hk; injection His as <- Hd1;
    try (injection Hrun as <-; rewrite <- Hd1, app_nil_r, insert_id by done;
         by rewrite set_open_zips_same).
  apply bind_Ok in Hrun as (arcname & w2 & Hrel & Hrun).
  apply lib_Ok in Hrel as [Hrel _].
  rewrite bool_decide_eq_true_2 in Hrel
    by (split; [done|by apply prefix_app_r]).
  injection Hrel as <- Hd2.
  apply lib_Ok in Hrun as [Hrun _]. rewrite <- Hd2, <- Hd1 in Hrun.
  fold d in Hrun. rewrite (resolve_yielded d input_dir k Hpre), Hk in Hrun.
  change (resolve d zip_path) with (zip_key d) in Hrun. rewrite Hms in Hrun.
  injection Hrun as <-. simpl. by rewrite drop_app_length.
Qed.

Lemma zip_loop_Ok (input_dir : Path) (ks : list (list string)) :
  forall (w w' : World) (ms : list (list string * Data)),
  let d := disk w in
  let base := resolve d input_dir in
  Forall (fun k => base `prefix_of` k) ks ->
  open_zips d !! zip_key d = Some ms ->
  for_each (map (yielded input_dir base) ks) (zip_one fault input_dir zip_path) w
    = (Ok tt, w') ->
  disk w' = set_open_zips d
              (<[zip_key d := ms ++ flat_map (member_of (files d) base) ks]>
                 (open_zips d)).
Proof.
  induction ks as [|k ks IH]; intros w w' ms d base Hks Hms Hrun.
  - injection Hrun as <-. subst d. simpl.
    by rewrite app_nil_r, insert_id, set_open_zips_same.
  - apply Forall_cons in Hks as [Hk Hks]. simpl in Hrun.
    apply bind_Ok in Hrun as ([] & w1 & H1 & Hrun).
    apply (zip_one_Ok input_dir k w w1 ms Hk Hms) in H1. fold d base in H1.
    assert (cwd (disk w1) = cwd d /\ files (disk w1) = files d) as [Hcwd Hfiles]
      by (by rewrite H1).
    assert (resolve (disk w1) input_dir = base) as Hbase
      by (unfold base, resolve; by rewrite Hcwd).
    assert (zip_key (disk w1) = zip_key d) as Hkey
      by (unfold zip_key; by rewrite Hcwd).
    specialize (IH w1 w' (ms ++ member_of (files d) base k)).
    simpl in IH. rewrite Hbase, Hkey, Hfiles in IH.
    rewrite (IH Hks); [| |done].
    + rewrite H1. unfold set_open_zips. simpl.
      by rewrite insert_insert_eq, <- app_assoc.
    + rewrite H1. apply lookup_insert_eq.
Qed.

End archive_contents.

Section zip_phase.
Import sim_utils.
Context {JobDefinition PreJob : Type}.
Variable fault : list (@Event JobDefinition) -> @Call JobDefinition -> option Exn.
Variable upload_reply : Data -> JobDefinition -> PreJob.

Local Abbreviation M := (@sim_utils.M JobDefinition).
Local Abbreviation World := (@sim_utils.World JobDefinition).
Local Abbreviation Event := (@sim_utils.Event JobDefinition).
Local Abbreviation Call := (@sim_utils.Call JobDefinition).

Lemma scanned_prefix (fs : gmap (list string) Node) (base : list string) :
  Forall (fun k => base `prefix_of` k) (scanned fs base).
Proof.
  unfold scanned. destruct (fs !! base) as [[|]|]; try constructor.
  apply Forall_forall. intros k Hk.
  by apply list_elem_of_filter in Hk as [[? _] _].
Qed.

(** When the [with] block completes, the archive on disk holds what the
    scan found on the files as they were once the archive had been
    created, and nothing else on the disk has changed. *)
Lemma zip_phase_Ok (input_dir : Path) (w w' : World) :
  with_ZipFile fault zip_path (zip_all fault input_dir) w = (Ok tt, w') ->
  let d := disk w in
  let fs1 := <[zip_key d := File Unfinished]> (files d) in
  cwd (disk w') = cwd d /\
  files (disk w') =
    <[zip_key d := File (Archive (archived fs1 (resolve d input_dir)))]> (files d).
Proof.
  intros Hrun d fs1. unfold with_ZipFile in Hrun.
  destruct (ZipFile fault zip_path w) as [[[]|e] w1] eqn:Hopen; [|done].
  apply lib_Ok in Hopen as [Hopen _]. fold d in Hopen.
  change (resolve d zip_path) with (zip_key d) in Hopen.
  assert (disk w1 = set_open_zips (set_files d fs1)
                      (<[zip_key d := []]> (open_zips d))) as Hd1.
  { cbv zeta in Hopen. destruct (files d !! zip_key d) as [[|]|];
      destruct (files d !! removelast (zip_key d)) as [[|]|]; by inversion Hopen. }
  clear Hopen.
  destruct (zip_all fault input_dir zip_path w1) as [[[]|e] w2] eqn:Hbody.
  2:{ by destruct (ZipFile_exit fault zip_path w2) as [[[]|e'] w3]. }
  destruct (ZipFile_exit fault zip_path w2) as [[[]|e'] w3] eqn:Hexit; [|done].
  injection Hrun as <-.
  (* the scan *)
  unfold zip_all in Hbody.
  apply bind_Ok in Hbody as (paths & w1' & Hscan & Hloop).
  apply lib_Ok in Hscan as [Hscan _].
  assert (resolve (disk w1) input_dir = resolve d input_dir) as Hbase
    by (by rewrite Hd1).
  assert (paths = map (yielded input_dir (resolve d input_dir))
                    (scanned fs1 (resolve d input_dir)) /\ disk w1' = disk w1)
    as [-> Hd1'].
  { cbv zeta in Hscan. rewrite Hbase in Hscan. unfold scanned.
    replace (files (disk w1)) with fs1 in Hscan by (by rewrite Hd1).
    destruct (fs1 !! resolve d input_dir) as [[|]|]; by inversion Hscan. }
  (* the loop *)
  assert (zip_key (disk w1') = zip_key d) as Hkey
    by (by rewrite Hd1', Hd1).
  pose proof (zip_loop_Ok fault input_dir (scanned fs1 (resolve d input_dir))
                w1' w2 []) as Hinv.
  simpl in Hinv. rewrite Hd1', Hbase in Hinv.
  rewrite Hd1', Hd1 in Hkey.
  replace (zip_key (disk w1)) with (zip_key d) in Hinv by (by rewrite Hd1).
  replace (files (disk w1)) with fs1 in Hinv by (by rewrite Hd1).
  specialize (Hinv (scanned_prefix _ _)).
  rewrite Hd1 in Hinv at 1. simpl in Hinv.
  specialize (Hinv (lookup_insert_eq _ _ _) Hloop).
  fold (archived fs1 (resolve d input_dir)) in Hinv.
  (* the close *)
  apply lib_Ok in Hexit as [Hexit _]. cbv zeta in Hexit.
  replace (resolve (disk w2) zip_path) with (zip_key d) in Hexit
    by (rewrite Hinv, Hd1; reflexivity).
  rewrite Hinv in Hexit. simpl in Hexit. rewrite lookup_insert_eq in Hexit.
  injection Hexit as <-. rewrite Hd1. simpl.
  split; [done|]. subst fs1. by rewrite insert_insert_eq.
Qed.

End zip_phase.

Section archived_spec.
Import sim_utils.






End archived_spec.

Section upload_run_shape.
Import sim_utils.
Context {JobDefinition PreJob : Type}.
Variable fault : list (@Event JobDefinition) -> @Call JobDefinition -> option Exn.
Variable upload_reply : Data -> JobDefinition -> PreJob.

Local Abbreviation M := (@sim_utils.M JobDefinition).
Local Abbreviation World := (@sim_utils.World JobDefinition).
Local Abbreviation Event := (@sim_utils.Event JobDefinition).
Local Abbreviation Call := (@sim_utils.Call JobDefinition).

Lemma zip_phase_calls (input_dir : Path) :
  calls_only zip_call (with_ZipFile fault zip_path (zip_all fault input_dir)).
Proof.
  apply calls_only_with_ZipFile; [done..|]. intros zf. unfold zip_all.
  apply calls_only_bind; [by apply calls_only_lib|]. intros paths.
  apply calls_only_for_each. intros file. unfold zip_one.
  apply calls_only_bind; [by apply calls_only_lib|]. intros [|].
  - apply calls_only_bind; [by apply calls_only_lib|]. intros arcname.
    by apply calls_only_lib.
  - apply calls_only_ret.
Qed.

Lemma upload_simulation_dir_run (input_dir : Path) (job_definition : JobDefinition)
    (w : World) :
  let run := upload_simulation_dir fault upload_reply input_dir job_definition w in
  exists evs,
    trace (snd run) = trace w ++ evs /\
    upload_run upload_reply input_dir job_definition w evs (fst run) (disk (snd run)).
Proof.
  intros run. subst run. rewrite upload_simulation_dir_unfold, bind_unfold.
  destruct (zip_phase_calls input_dir w) as (evs1 & Htr1 & Hcalls).
  destruct (with_ZipFile fault zip_path (zip_all fault input_dir) w)
    as [[[]|e] w1] eqn:Hzip; simpl in Htr1.
  2:{ exists evs1. split; [done|]. by eapply zip_failed. }
  apply zip_phase_Ok in Hzip as [Hcwd Hfiles]. simpl in Hcwd, Hfiles.
  set (d := disk w) in *.
  set (members := archived (<[zip_key d := File Unfinished]> (files d))
                    (resolve d input_dir)) in *.
  assert (files (disk w1) !! resolve (disk w1) zip_path
          = Some (File (Archive members))) as Hlook.
  { change (resolve (disk w1) zip_path) with (cwd (disk w1) ++ ["simulation_zipfile.zip"]).
    rewrite Hcwd, Hfiles. apply lookup_insert_eq. }
  set (up := sim_upload_simulation zip_path (Some (Archive members)) job_definition).
  assert (upload_simulation fault upload_reply zip_path job_definition w1 =
          match fault (trace w1) up with
          | Some e => (Raise e, log (up, Some e) (disk w1) w1)
          | None => (Ok (upload_reply (Archive members) job_definition),
                     log (up, None) (disk w1) w1)
          end) as Hup.
  { unfold upload_simulation, lib. rewrite Hlook. by destruct (fault _ _). }
  rewrite bind_unfold, Hup.
  destruct (fault (trace w1) up) as [e|].
  { eexists. split; [simpl; by rewrite Htr1, <- app_assoc|].
    by eapply upload_failed. }
  set (w2 := log (up, None) (disk w1) w1).
  assert (unlink fault zip_path w2 =
          match fault (trace w2) (Path_unlink zip_path) with
          | Some e => (Raise e, log (Path_unlink zip_path, Some e) (disk w1) w2)
          | None => (Ok tt, log (Path_unlink zip_path, None)
                              (set_files (disk w1)
                                 (delete (zip_key d) (files (disk w1)))) w2)
          end) as Hun.
  { unfold unlink, lib. destruct (fault _ _); [done|]. simpl.
    rewrite Hlook.
    change (resolve (disk w1) zip_path)
      with (cwd (disk w1) ++ ["simulation_zipfile.zip"]).
    by rewrite Hcwd. }
  rewrite bind_unfold, Hun.
  destruct (fault (trace w2) (Path_unlink zip_path)) as [e|].
  { eexists. split; [simpl; by rewrite Htr1, <- !app_assoc|].
    by eapply unlink_failed. }
  eexists. split; [simpl; by rewrite Htr1, <- !app_assoc|].
  eapply uploaded; try done. simpl.
  by rewrite Hfiles, delete_insert_eq.
Qed.

End upload_run_shape.

(** ** C7 *)

Section errors_of_the_utilities.
Import sim_utils.
Context {JobDefinition PreJob : Type}.
Variable fault : list (@Event JobDefinition) -> @Call JobDefinition -> option Exn.
Variable upload_reply : Data -> JobDefinition -> PreJob.
Variable field_data_of : string -> list (string * (Z * Z)).
Variable n_cells_of : Mesh -> Z.

Local Abbreviation World := (@sim_utils.World JobDefinition).
Local Abbreviation Event := (@sim_utils.Event JobDefinition).


End errors_of_the_utilities.

(** ** C10 and C2 *)

Section upload_archive.
Import sim_utils.
Context {JobDefinition PreJob : Type}.
Variable fault : list (@Event JobDefinition) -> @Call JobDefinition -> option Exn.
Variable upload_reply : Data -> JobDefinition -> PreJob.

Local Abbreviation World := (@sim_utils.World JobDefinition).
Local Abbreviation Event := (@sim_utils.Event JobDefinition).
Local Abbreviation Call := (@sim_utils.Call JobDefinition).

Lemma zip_call_not_upload (evs : list Event) path payload jd o :
  Forall (fun ev => zip_call (fst ev)) evs ->
  ~ In (sim_upload_simulation path payload jd, o) evs.
Proof.
  intros Hall Hin. rewrite Forall_forall in Hall.
  by apply list_elem_of_In, Hall in Hin.
Qed.

Lemma zip_call_not_unlink (evs : list Event) p o :
  Forall (fun ev => zip_call (fst ev)) evs -> ~ In (Path_unlink p, o) evs.
Proof.
  intros Hall Hin. rewrite Forall_forall in Hall.
  by apply list_elem_of_In, Hall in Hin.
Qed.

(** C10.  The archive [simulation_zipfile.zip] is unlinked only right after
    the upload call has returned; a run that returns has deleted it; and if
    the upload call raises, the run raises that error, never unlinks, and
    leaves the finished archive in the working directory. *)
Theorem archive_deleted_only_after_upload
    (input_dir : Path) (job_definition : JobDefinition) (w : World) :
  let run := upload_simulation_dir fault upload_reply input_dir job_definition w in
  let key := cwd (disk w) ++ ["simulation_zipfile.zip"] in
  exists evs,
    trace (snd run) = trace w ++ evs /\
    (forall p o,
       In (Path_unlink p, o) evs ->
       p = zip_path /\
       exists before payload,
         evs = before ++ [(sim_upload_simulation zip_path payload job_definition, None);
                          (Path_unlink zip_path, o)]) /\
    (forall pre_job,
       fst run = Ok pre_job ->
       In (Path_unlink zip_path, None) evs /\
       files (disk (snd run)) !! key = None) /\
    (forall path payload jd e,
       In (sim_upload_simulation path payload jd, Some e) evs ->
       fst run = Raise e /\
       (forall p o, ~ In (Path_unlink p, o) evs) /\
       exists members,
         payload = Some (Archive members) /\
         files (disk (snd run)) !! key = Some (File (Archive members))).
Proof.
  intros run key.
  destruct (upload_simulation_dir_run fault upload_reply input_dir job_definition w)
    as (evs & Htr & Hrun).
  fold run in Htr, Hrun. exists evs. split; [done|].
  destruct Hrun as [e Hr Hcalls|e evs1 d members Hr Hcalls -> Hcwd Hfiles
                   |e evs1 d members Hr Hcalls -> Hcwd Hfiles
                   |evs1 d members Hr Hcalls -> Hcwd Hfiles].
  - (* the archive could not be written *)
    split; [intros p o Hin; by apply zip_call_not_unlink in Hin|].
    split; [intros pre_job Hok; congruence|].
    intros path payload jd e' Hin. by apply zip_call_not_upload in Hin.
  - (* the upload failed *)
    split.
    { intros p o [Hin|[Hin|[]]]%in_app_or; [|done].
      by apply zip_call_not_unlink in Hin. }
    split; [intros pre_job Hok; congruence|].
    intros path payload jd e' [Hin|[Hin|[]]]%in_app_or.
    { by apply zip_call_not_upload in Hin. }
    injection Hin as <- <- <- <-. split; [done|]. split.
    { intros p o [Hin|[Hin|[]]]%in_app_or; [|done].
      by apply zip_call_not_unlink in Hin. }
    exists members. split; [done|]. rewrite Hfiles. apply lookup_insert_eq.
  - (* the unlink failed *)
    split.
    { intros p o [Hin|[Hin|[Hin|[]]]]%in_app_or; [|done|].
      - by apply zip_call_not_unlink in Hin.
      - injection Hin as <- <-. split; [done|]. by eexists evs1, _. }
    split; [intros pre_job Hok; congruence|].
    intros path payload jd e' [Hin|[Hin|[Hin|[]]]]%in_app_or; [|done..].
    by apply zip_call_not_upload in Hin.
  - (* uploaded and deleted *)
    split.
    { intros p o [Hin|[Hin|[Hin|[]]]]%in_app_or; [|done|].
      - by apply zip_call_not_unlink in Hin.
      - injection Hin as <- <-. split; [done|]. by eexists evs1, _. }
    split.
    { intros pre_job _. split.
      - apply in_or_app. right. right. by left.
      - rewrite Hfiles. apply lookup_delete_eq. }
    intros path payload jd e' [Hin|[Hin|[Hin|[]]]]%in_app_or; [|done..].
    by apply zip_call_not_upload in Hin.
Qed.


End upload_archive.

(** ** Concrete runs *)

Section concrete_runs.
Import sim_utils.



(** The run on [in] without faults: every call succeeds and the archive
    with the two files is uploaded, then deleted. *)
Example upload_run_on_in :
  let run := upload_simulation_dir no_fault echo_reply in_dir "job" demo_world in
  fst run = Ok "job" /\
  Forall succeeded (trace (snd run)) /\
  In (sim_upload_simulation zip_path
        (Some (Archive [ (["mesh.geo"], Raw "geometry");
                         (["sub"; "bc.json"], Raw "boundary") ])) "job", None)
     (trace (snd run)) /\
  files (disk (snd run)) = files demo_disk.
Proof.
  intros run. split; [by vm_compute|]. split.
  { vm_compute. repeat constructor. }
  split; [vm_compute; intuition|].
  subst run.
  destruct (upload_simulation_dir_run no_fault echo_reply in_dir "job" demo_world)
    as (evs & Htr & Hrun).
  destruct Hrun as [e Hr _|e ? ? ? Hr _ _ _ _|e ? ? ? Hr _ _ _ _|? d ? _ _ _ _ Hfiles];
    try (vm_compute in Hr; discriminate Hr).
  rewrite Hfiles. apply delete_id. by vm_compute.
Qed.

(** The run on [in] with the network down: the error of the upload is
    raised, nothing is unlinked, and the archive stays in [/work]. *)
Example upload_run_network_down :
  let run := upload_simulation_dir network_down echo_reply in_dir "job" demo_world in
  fst run = Raise {| exn_class := "ConnectionError"; exn_msg := "network unreachable" |} /\
  files (disk (snd run)) !! ["work"; "simulation_zipfile.zip"]
    = Some (File (Archive [ (["mesh.geo"], Raw "geometry");
                            (["sub"; "bc.json"], Raw "boundary") ])) /\
  ~ In (Path_unlink zip_path, None) (trace (snd run)).
Proof.
  intros run. split; [by vm_compute|]. split; [by vm_compute|].
  vm_compute. intuition discriminate.
Qed.

(** The summary of the demo job, line by line. *)
Example print_job_summary_lines :
  map fst (trace (snd (print_job_summary no_fault demo_job demo_world))) =
  [ print "Job:         mim_capacitor";
    print "Status:      COMPLETED (exit 0)";
    print "Duration:    2m 5s";
    print "Resources:   2 CPU / 4 GB";
    print "Output:      2.38 MB";
    print "Files:       2 files";
    print "             - results.csv";
    print "             - mesh.msh" ].
Proof. by vm_compute. Qed.

(** When the third [print] fails, the summary stops there and raises the
    error of that call. *)
Example print_job_summary_stops_at_failure :
  let run := print_job_summary (fails_after 2) demo_job demo_world in
  fst run = Raise {| exn_class := "OSError"; exn_msg := "input/output error" |} /\
  trace (snd run) =
    [ (print "Job:         mim_capacitor", None);
      (print "Status:      COMPLETED (exit 0)", None);
      (print "Duration:    2m 5s",
       Some {| exn_class := "OSError"; exn_msg := "input/output error" |}) ].
Proof. by vm_compute. Qed.

(** Plotting the groups whose name contains [metal], off screen: tag 1 is
    drawn in red under the name given last, tag 3 is extracted but empty. *)
Example plot_mesh_pv_groups :
  map fst (trace (snd (plot_mesh_pv no_fault demo_field_data demo_n_cells
                         "cap.msh" "mesh.png" (Some ["metal"]) false demo_world))) =
  [ meshio_read "cap.msh"; pv_read "cap.msh"; pv_Plotter true;
    plotter_set_background "white";
    mesh_extract_cells (MeshOf "cap.msh") 1;
    plotter_add_mesh (Subset (MeshOf "cap.msh") 1) "red" (Some "metal5_alias");
    mesh_extract_cells (MeshOf "cap.msh") 3;
    plotter_add_legend;
    plotter_set_camera_position "iso";
    plotter_screenshot "mesh.png"; plotter_close;
    IPython_Image "mesh.png"; IPython_display "mesh.png" ].
Proof. by vm_compute. Qed.

(** A mesh file that cannot be read: the error of [meshio.read] is raised
    and nothing else is called. *)
Example plot_mesh_pv_unreadable :
  let run := plot_mesh_pv (fails_after 0) demo_field_data demo_n_cells
               "cap.msh" "mesh.png" None true demo_world in
  fst run = Raise {| exn_class := "OSError"; exn_msg := "input/output error" |} /\
  map fst (trace (snd run)) = [ meshio_read "cap.msh" ].
Proof. by vm_compute. Qed.


End concrete_runs.


(** * Further properties of the cells *)

(** ** cmim: plates *)

Section cmim_plates.
Import gf capacitors.

Variables (width length : Q) (capacitance : option Q) (model : string).
Variables (layer_metal5 layer_mim layer_topmetal1 layer_vmim : LayerSpec).

(** X1.  The MIM, Metal5 and TopMetal1 rectangles of [cmim] are concentric:
    all three are centred at half the snapped width and half the snapped
    length, whatever the arguments. *)
Theorem cmim_plates_concentric :
  let c := cmim width length capacitance model
             layer_metal5 layer_mim layer_topmetal1 layer_vmim in
  exists mim m5 tm1 tiles,
    refs c = mim :: m5 :: tm1 :: tiles /\
    layer (cell mim) = layer_mim /\ layer (cell m5) = layer_metal5 /\
    layer (cell tm1) = layer_topmetal1 /\
    x_center mim == grid_snap width / 2 /\ y_center mim == grid_snap length / 2 /\
    x_center m5 == x_center mim /\ y_center m5 == y_center mim /\
    x_center tm1 == x_center mim /\ y_center tm1 == y_center mim.
Proof.
  intros c. subst c. rewrite cmim_closed_form. cbv zeta.
  eexists _, _, _, _. split; [reflexivity|].
  unfold x_center, y_center, x_max, y_max, x_min, y_min. simpl.
  repeat split; field.
Qed.

(** X2.  The TopMetal1 rectangle of [cmim] spans Y from 0.34 to the snapped
    length less 0.34 and X from [0.625 - 0.004 width] to the snapped width
    less that margin, the margin taken from the width as given.  In Y it is
    always within the MIM rectangle; in X it is within it exactly when
    [width <= 156.25], beyond which the margin is negative.  Its X-size is
    positive exactly when [1.25 < snapped width + 0.008 width], its Y-size
    exactly when [0.68 < snapped length]. *)
Theorem cmim_top_plate_extent :
  let c := cmim width length capacitance model
             layer_metal5 layer_mim layer_topmetal1 layer_vmim in
  let w := grid_snap width in
  let l := grid_snap length in
  exists mim m5 tm1 tiles,
    refs c = mim :: m5 :: tm1 :: tiles /\
    layer (cell tm1) = layer_topmetal1 /\
    x_min tm1 == 0.625 - 0.004 * width /\
    x_max tm1 == w - (0.625 - 0.004 * width) /\
    y_min tm1 == 0.34 /\ y_max tm1 == l - 0.34 /\
    (y_min mim <= y_min tm1 /\ y_max tm1 <= y_max mim) /\
    ((x_min mim <= x_min tm1 /\ x_max tm1 <= x_max mim) <-> width <= 156.25) /\
    (0 < x_size tm1 <-> 1.25 < w + 0.008 * width) /\
    (0 < y_size tm1 <-> 0.68 < l).
Proof.
  intros c w l. subst c. rewrite cmim_closed_form. cbv zeta. fold w l.
  eexists _, _, _, _. split; [reflexivity|]. split; [reflexivity|].
  unfold x_size, y_size, x_max, y_max, x_min, y_min. simpl.
  split; [lra|]. split; [lra|]. split; [lra|]. split; [lra|].
  split; [split; lra|].
  split; [split; [intros [? ?]|intros ?; split]; lra|].
  split; split; intros ?; lra.
Qed.

(** X3.  The [capacitance] and [model] arguments of [cmim] have no effect on
    the rectangles and the ports; a capacitance that is given is stored in
    the info as it is, and the model name likewise. *)
Theorem cmim_capacitance_not_used_for_geometry
    (capacitance' : option Q) (model' : string) (given : Q) :
  let build := fun cap mdl =>
    cmim width length cap mdl layer_metal5 layer_mim layer_topmetal1 layer_vmim in
  refs (build capacitance model) = refs (build capacitance' model') /\
  ports (build capacitance model) = ports (build capacitance' model') /\
  py.dict_get (info (build (Some given) model)) "capacitance" = Some (IFloat given) /\
  py.dict_get (info (build capacitance model)) "model" = Some (IStr model).
Proof.
  intros build. subst build. cbv beta. rewrite !cmim_closed_form. cbv zeta.
  repeat split.
Qed.

End cmim_plates.

(** ** cmim: tiles and metadata *)

Section cmim_tiles.
Import gf capacitors.

Lemma n_tiles_nonneg (v : Q) : (0 <= n_tiles v)%Z.
Proof.
  unfold n_tiles, py.max.
  destruct (Z.ltb_spec (py.floor ((v - 2 * 0.42 + 0.84) / (0.42 + 0.84))) 0); lia.
Qed.


Lemma vmim_tiles_none (ly : LayerSpec) (nx ny : Z) :
  nx = 0%Z \/ ny = 0%Z -> vmim_tiles ly nx ny = [].
Proof.
  intros [-> | ->]; unfold vmim_tiles; [done|].
  induction (py.range nx) as [|ix ixs IH]; [done|]. simpl. exact IH.
Qed.

Lemma inject_Z_succ_le (i j : Z) : (i < j)%Z -> inject_Z i + 1 <= inject_Z j.
Proof.
  intros Hij. change 1 with (inject_Z 1).
  rewrite <- inject_Z_plus, <- Zle_Qle. lia.
Qed.

Lemma inject_Z_pred (j : Z) : inject_Z (j - 1) == inject_Z j - 1.
Proof.
  unfold Qeq. simpl. lia.
Qed.

Variables (width length : Q) (capacitance : option Q) (model : string).
Variables (layer_metal5 layer_mim layer_topmetal1 layer_vmim : LayerSpec).



(** X6.  Any two different Vmim tiles of [cmim] are at least the tile gap
    0.84 apart, along X or along Y: tiles never touch or overlap. *)
Theorem cmim_tiles_apart :
  let c := cmim width length capacitance model
             layer_metal5 layer_mim layer_topmetal1 layer_vmim in
  exists mim m5 tm1 tiles,
    refs c = mim :: m5 :: tm1 :: tiles /\
    forall t t', In t tiles -> In t' tiles -> t <> t' -> apart 0.84 t t'.
Proof.
  intros c. subst c. rewrite cmim_closed_form. cbv zeta.
  eexists _, _, _, _. split; [reflexivity|].
  intros t t' Ht Ht' Hne.
  apply vmim_tiles_elem in Ht as (ix & iy & _ & _ & ->).
  apply vmim_tiles_elem in Ht' as (ix' & iy' & _ & _ & ->).
  unfold apart, x_max, y_max, x_min, y_min. simpl.
  destruct (Z.lt_trichotomy ix ix') as [Hx|[Hx|Hx]].
  - left. apply inject_Z_succ_le in Hx. lra.
  - destruct (Z.lt_trichotomy iy iy') as [Hy|[Hy|Hy]].
    + right. right. left. apply inject_Z_succ_le in Hy. lra.
    + by subst.
    + right. right. right. apply inject_Z_succ_le in Hy. lra.
  - right. left. apply inject_Z_succ_le in Hx. lra.
Qed.

(** X7.  The Vmim tiles of [cmim] start above the lower edge of the
    TopMetal1 rectangle, but they do not always end below its upper edge:
    they all do exactly when there is no tile or the snapped length leaves
    at least 0.26 beyond the last full pitch, [1.26 ny + 0.26 <= l]; and
    they all end left of its right edge exactly when there is no tile or
    [1.26 nx + 0.545 <= w + 0.004 width]. *)
Theorem cmim_tiles_within_top_plate :
  let c := cmim width length capacitance model
             layer_metal5 layer_mim layer_topmetal1 layer_vmim in
  let w := grid_snap width in
  let l := grid_snap length in
  exists mim m5 tm1 tiles nx ny,
    refs c = mim :: m5 :: tm1 :: tiles /\
    py.dict_get (info c) "n_vmim_tiles" = Some (IPair nx ny) /\
    (tiles = [] <-> nx = 0%Z \/ ny = 0%Z) /\
    (forall t, In t tiles -> y_min tm1 <= y_min t) /\
    ((forall t, In t tiles -> y_max t <= y_max tm1) <->
     tiles = [] \/ 1.26 * inject_Z ny + 0.26 <= l) /\
    ((forall t, In t tiles -> x_max t <= x_max tm1) <->
     tiles = [] \/ 1.26 * inject_Z nx + 0.545 <= w + 0.004 * width).
Proof.
  intros c w l. subst c. rewrite cmim_closed_form. cbv zeta. fold w l.
  pose proof (n_tiles_nonneg w) as Hnx. pose proof (n_tiles_nonneg l) as Hny.
  set (nx := n_tiles w) in *. set (ny := n_tiles l) in *.
  eexists _, _, _, _, nx, ny. split; [reflexivity|]. split; [reflexivity|].
  assert (vmim_tiles layer_vmim nx ny = [] <-> nx = 0%Z \/ ny = 0%Z) as Hnone.
  { split; [|apply vmim_tiles_none]. intros Hnil.
    destruct (Z.eq_dec nx 0%Z) as [?|Hx]; [by left|].
    destruct (Z.eq_dec ny 0%Z) as [?|Hy]; [by right|]. exfalso.
    assert (In (vmim_tile layer_vmim 0%Z 0%Z) (vmim_tiles layer_vmim nx ny)) as Hin.
    { apply vmim_tiles_elem. exists 0%Z, 0%Z. repeat split; lia. }
    by rewrite Hnil in Hin. }
  split; [exact Hnone|].
  unfold x_max, y_max, x_min, y_min. cbn [cell at_ size centered fst snd].
  split.
  { intros t Ht. apply vmim_tiles_elem in Ht as (ix & iy & _ & [Hiy _] & ->).
    cbn [cell at_ size centered fst snd vmim_tile placed].
    assert (0 <= inject_Z iy) as H0.
    { change 0 with (inject_Z 0). by rewrite <- Zle_Qle. }
    lra. }
  split.
  - split.
    + intros Hall. destruct (Z.eq_dec nx 0%Z) as [?|Hx]; [left; apply Hnone; by left|].
      destruct (Z.eq_dec ny 0%Z) as [?|Hy]; [left; apply Hnone; by right|]. right.
      specialize (Hall (vmim_tile layer_vmim 0%Z (ny - 1)%Z)).
      cbn [cell at_ size centered fst snd vmim_tile placed] in Hall.
      pose proof (inject_Z_pred ny) as Epred.
      assert (In (vmim_tile layer_vmim 0%Z (ny - 1)%Z) (vmim_tiles layer_vmim nx ny)) as Hin.
      { apply vmim_tiles_elem. exists 0%Z, (ny - 1)%Z. repeat split; lia. }
      specialize (Hall Hin). lra.
    + intros [Hnil|Hroom] t Ht; [by rewrite Hnil in Ht|].
      apply vmim_tiles_elem in Ht as (ix & iy & _ & [_ Hiy] & ->).
      cbn [cell at_ size centered fst snd vmim_tile placed].
      apply inject_Z_succ_le in Hiy. lra.
  - split.
    + intros Hall. destruct (Z.eq_dec nx 0%Z) as [?|Hx]; [left; apply Hnone; by left|].
      destruct (Z.eq_dec ny 0%Z) as [?|Hy]; [left; apply Hnone; by right|]. right.
      specialize (Hall (vmim_tile layer_vmim (nx - 1)%Z 0%Z)).
      cbn [cell at_ size centered fst snd vmim_tile placed] in Hall.
      pose proof (inject_Z_pred nx) as Epred.
      assert (In (vmim_tile layer_vmim (nx - 1)%Z 0%Z) (vmim_tiles layer_vmim nx ny)) as Hin.
      { apply vmim_tiles_elem. exists (nx - 1)%Z, 0%Z. repeat split; lia. }
      specialize (Hall Hin). lra.
    + intros [Hnil|Hroom] t Ht; [by rewrite Hnil in Ht|].
      apply vmim_tiles_elem in Ht as (ix & iy & [_ Hix] & _ & ->).
      cbn [cell at_ size centered fst snd vmim_tile placed].
      apply inject_Z_succ_le in Hix. lra.
Qed.

End cmim_tiles.



(** ** Grid snapping in cmim and rfcmim *)

Section snapping.
Import gf capacitors.

Lemma round_integer (k : Z) : py.round (inject_Z k) = k.
Proof.
  unfold py.round. rewrite Qfloor_Z.
  assert (Qcompare (inject_Z k - inject_Z k) (1 # 2) = Lt) as ->; [|done].
  rewrite <- Qlt_alt. lra.
Qed.

Lemma grid_snap_idempotent (x : Q) : grid_snap (grid_snap x) == grid_snap x.
Proof.
  unfold grid_snap at 1.
  rewrite (round_same _ (inject_Z (py.round (x / 0.005)))).
  - by rewrite round_integer.
  - unfold grid_snap. field.
Qed.

Variables (width length : Q) (capacitance : option Q) (model : string).
Variables (layer_metal5 layer_mim layer_topmetal1 layer_vmim : LayerSpec).

(** X8.  The sizes [cmim] records as [mim_width] and [mim_length] are whole
    multiples of the grid step 0.005, at most half a step, 0.0025, away
    from the width and length given; and snapping is idempotent: a width
    and length that [cmim] has recorded are recorded unchanged when passed
    in again. *)
Theorem cmim_snaps_to_grid :
  let build := fun w l =>
    cmim w l capacitance model layer_metal5 layer_mim layer_topmetal1 layer_vmim in
  exists w l w2 l2,
    py.dict_get (info (build width length)) "mim_width" = Some (IFloat w) /\
    py.dict_get (info (build width length)) "mim_length" = Some (IFloat l) /\
    (exists k : Z, w == inject_Z k * 0.005) /\
    (exists k : Z, l == inject_Z k * 0.005) /\
    - 0.0025 <= w - width <= 0.0025 /\
    - 0.0025 <= l - length <= 0.0025 /\
    py.dict_get (info (build w l)) "mim_width" = Some (IFloat w2) /\
    py.dict_get (info (build w l)) "mim_length" = Some (IFloat l2) /\
    w2 == w /\ l2 == l.
Proof.
  intros build. subst build. cbv beta.
  exists (grid_snap width), (grid_snap length),
    (grid_snap (grid_snap width)), (grid_snap (grid_snap length)).
  rewrite !cmim_closed_form. cbv zeta.
  split; [reflexivity|]. split; [reflexivity|].
  split; [apply grid_snap_spec|]. split; [apply grid_snap_spec|].
  split; [apply grid_snap_spec|]. split; [apply grid_snap_spec|].
  split; [reflexivity|]. split; [reflexivity|].
  split; apply grid_snap_idempotent.
Qed.

Variables (width' length' : Q).
Variables (layer_activ layer_metal1 layer_metal1_pin layer_metal5_pin
           layer_topmetal1_pin layer_cont layer_psd layer_pwellblock : LayerSpec).
Variable layers_no_qrc : list LayerSpec.

Hypothesis snap_width : grid_snap width == grid_snap width'.
Hypothesis snap_length : grid_snap length == grid_snap length'.

(** X9.  Widths and lengths that snap to the same grid values give the same
    [rfcmim] component, and the same [cmim] component but for the TopMetal1
    rectangle and its port P2, whose X margin is taken from the width
    before snapping: the MIM and Metal5 rectangles, the Vmim tiles, the port
    P1 and the info are the same. *)
Theorem cells_depend_on_snapped_sizes :
  same_component
    (rfcmim width length capacitance model
       layer_activ layer_mim layer_metal1 layer_metal1_pin layer_metal5
       layer_metal5_pin layer_topmetal1 layer_topmetal1_pin layer_vmim
       layer_cont layer_psd layer_pwellblock layers_no_qrc)
    (rfcmim width' length' capacitance model
       layer_activ layer_mim layer_metal1 layer_metal1_pin layer_metal5
       layer_metal5_pin layer_topmetal1 layer_topmetal1_pin layer_vmim
       layer_cont layer_psd layer_pwellblock layers_no_qrc) /\
  (let c := cmim width length capacitance model
              layer_metal5 layer_mim layer_topmetal1 layer_vmim in
   let c' := cmim width' length' capacitance model
               layer_metal5 layer_mim layer_topmetal1 layer_vmim in
   exists mim m5 tm1 tiles p1 p2 mim' m5' tm1' tiles' p1' p2',
     refs c = mim :: m5 :: tm1 :: tiles /\ ports c = [p1; p2] /\
     refs c' = mim' :: m5' :: tm1' :: tiles' /\ ports c' = [p1'; p2'] /\
     same_ref mim mim' /\ same_ref m5 m5' /\ tiles = tiles' /\
     same_port p1 p1' /\
     Forall2 (fun kv1 kv2 =>
                fst kv1 = fst kv2 /\ same_info_value (snd kv1) (snd kv2))
       (info c) (info c')).
Proof using snap_width snap_length.
  split.
  - rewrite !rfcmim_closed_form. cbv zeta.
    set (w := grid_snap width) in *. set (w' := grid_snap width') in *.
    set (l := grid_snap length) in *. set (l' := grid_snap length') in *.
    split; [|split]; cbn [refs ports info]; [|constructor..].
    constructor; [apply placed_same; lra|].
    constructor; [apply placed_same; lra|].
    apply Forall2_app.
    + apply Forall2_flat_map_same. intros layer.
      constructor; [apply placed_same; lra|constructor].
    + constructor; [apply placed_same; lra|constructor].
  - intros c c'. subst c c'. rewrite !cmim_closed_form. cbv zeta.
    rewrite <- (n_tiles_same _ _ snap_width), <- (n_tiles_same _ _ snap_length).
    set (w := grid_snap width) in *. set (w' := grid_snap width') in *.
    set (l := grid_snap length) in *. set (l' := grid_snap length') in *.
    eexists _, _, _, _, _, _, _, _, _, _, _, _.
    split; [reflexivity|]. split; [reflexivity|].
    split; [reflexivity|]. split; [reflexivity|].
    split; [apply placed_same; lra|]. split; [apply placed_same; lra|].
    split; [reflexivity|].
    split.
    { split; [reflexivity|].
      split; [split; cbn; by rewrite ?snap_width, ?snap_length|].
      split; [apply min_same; by rewrite ?snap_width, ?snap_length|done]. }
    repeat (constructor; [split; [reflexivity|]|]); cbn; try done.
    destruct capacitance; cbn; [reflexivity|].
    by rewrite snap_width, snap_length.
Qed.

End snapping.

(** X9 on 6.99 and 6.991, which both snap to 6.99. *)
Lemma cells_depend_on_snapped_sizes_witness :
  grid_snap 6.991 == grid_snap 6.99 /\
  same_component (capacitors.rfcmim_default 6.991 6.991 None)
                 (capacitors.rfcmim_default 6.99 6.99 None).
Proof.
  assert (grid_snap 6.991 == grid_snap 6.99) as H by reflexivity.
  split; [exact H|].
  exact (proj1 (cells_depend_on_snapped_sizes 6.991 6.991 None "rfcmim"
                  "Metal5drawing" "MIMdrawing" "TopMetal1drawing" "Vmimdrawing"
                  6.99 6.99
                  "Activdrawing" "Metal1drawing" "Metal1pin" "Metal5pin"
                  "TopMetal1pin" "Contdrawing" "pSDdrawing" "PWellblock"
                  [ "Activnoqrc"; "TopMetal1noqrc"; "Metal1noqrc"; "Metal2noqrc";
                    "Metal3noqrc"; "Metal4noqrc"; "Metal5noqrc" ] H H)).
Defined.

(** ** cmim: ports *)

Section cmim_ports.
Import gf capacitors.

Variables (width length : Q) (capacitance : option Q) (model : string).
Variables (layer_metal5 layer_mim layer_topmetal1 layer_vmim : LayerSpec).

(** X26.  [cmim] has exactly the two ports P1 and P2, in this order, both
    electrical: P1 on the Metal5 layer facing 180 and as wide as the
    shorter side of the Metal5 rectangle, P2 on the TopMetal1 layer facing
    0 and as wide as the shorter side of the TopMetal1 rectangle.  So P1 is
    1.2 wider than the shorter snapped side of the capacitor, and the width
    of P2 is positive exactly when [1.25 < snapped width + 0.008 width] and
    [0.68 < snapped length]. *)
Theorem cmim_port_widths :
  let c := cmim width length capacitance model
             layer_metal5 layer_mim layer_topmetal1 layer_vmim in
  exists mim m5 tm1 tiles p1 p2,
    refs c = mim :: m5 :: tm1 :: tiles /\ ports c = [p1; p2] /\
    name p1 = "P1" /\ name p2 = "P2" /\
    port_type p1 = "electrical" /\ port_type p2 = "electrical" /\
    port_layer p1 = layer (cell m5) /\ port_layer p2 = layer (cell tm1) /\
    orientation p1 = 180%Z /\ orientation p2 = 0%Z /\
    gf.width p1 = py.min (x_size m5) (y_size m5) /\
    gf.width p2 = py.min (x_size tm1) (y_size tm1) /\
    gf.width p1 == py.min (grid_snap width) (grid_snap length) + 1.2 /\
    (0 < gf.width p2 <->
     1.25 < grid_snap width + 0.008 * width /\ 0.68 < grid_snap length).
Proof.
  intros c. subst c. rewrite cmim_closed_form. cbv zeta.
  eexists _, _, _, _, _, _. split; [reflexivity|]. split; [reflexivity|].
  do 10 (split; [reflexivity|]).
  cbn [gf.width]. unfold py.min.
  set (w := grid_snap width). set (l := grid_snap length).
  repeat match goal with
         | |- context [Qlt_le_dec ?a ?b] => destruct (Qlt_le_dec a b)
         end;
    (split; [lra|]); (split; [intros ?; split; lra|intros [? ?]; lra]).
Qed.

End cmim_ports.

(** ** rfcmim: the nest of rectangles *)

Section rfcmim_nest.
Import gf capacitors.

Variables (width length : Q) (capacitance : option Q) (model : string).
Variables (layer_activ layer_mim layer_metal1 layer_metal1_pin layer_metal5
           layer_metal5_pin layer_topmetal1 layer_topmetal1_pin layer_vmim
           layer_cont layer_psd layer_pwellblock : LayerSpec).
Variable layers_no_qrc : list LayerSpec.

(** X10.  [rfcmim] draws, in this order, the MIM rectangle, the PWell block
    3 beyond it on every side, one rectangle 5.6 beyond it on every side for
    each no-QRC layer in the order given, and the Metal5 rectangle 0.6
    beyond it: [3 + len(layers_no_qrc)] rectangles, all centred on the MIM
    rectangle.  It adds no port and no info. *)
Theorem rfcmim_nested_rectangles :
  let c := rfcmim width length capacitance model
             layer_activ layer_mim layer_metal1 layer_metal1_pin layer_metal5
             layer_metal5_pin layer_topmetal1 layer_topmetal1_pin layer_vmim
             layer_cont layer_psd layer_pwellblock layers_no_qrc in
  exists mim pwell no_qrc m5,
    refs c = mim :: pwell :: no_qrc ++ [m5] /\
    List.length (refs c) = (3 + List.length layers_no_qrc)%nat /\
    ports c = [] /\ info c = [] /\
    layer (cell mim) = layer_mim /\
    layer (cell pwell) = layer_pwellblock /\
    layer (cell m5) = layer_metal5 /\
    map (fun r => layer (cell r)) no_qrc = layers_no_qrc /\
    x_min mim == 0 /\ y_min mim == 0 /\
    margin_around 3 mim pwell /\
    margin_around 0.6 mim m5 /\
    Forall (margin_around 5.6 mim) no_qrc.
Proof.
  intros c. subst c. rewrite rfcmim_closed_form. cbv zeta.
  eexists _, _, _, _. split; [reflexivity|].
  split.
  { cbn [refs app]. rewrite !length_cons, length_app.
    rewrite (flat_map_length_const _ 1%nat) by done. simpl. lia. }
  split; [reflexivity|]. split; [reflexivity|].
  split; [reflexivity|]. split; [reflexivity|]. split; [reflexivity|].
  split.
  { induction layers_no_qrc as [|ly lys IH]; [done|]. simpl. by rewrite IH. }
  unfold margin_around, x_max, y_max, x_min, y_min. simpl.
  split; [lra|]. split; [lra|].
  split; [repeat split; lra|]. split; [repeat split; lra|].
  induction layers_no_qrc as [|ly lys IH]; constructor; [|exact IH].
  simpl. repeat split; lra.
Qed.

(** X11.  The component [rfcmim] returns does not depend on [capacitance],
    on [model], or on any of the layer arguments other than [layer_mim],
    [layer_pwellblock], [layers_no_qrc] and [layer_metal5]: nothing is drawn
    on the other nine layers and nothing is stored. *)
Theorem rfcmim_unused_arguments
    (capacitance' : option Q) (model' : string)
    (layer_activ' layer_metal1' layer_metal1_pin' layer_metal5_pin'
     layer_topmetal1' layer_topmetal1_pin' layer_vmim' layer_cont'
     layer_psd' : LayerSpec) :
  rfcmim width length capacitance' model'
    layer_activ' layer_mim layer_metal1' layer_metal1_pin' layer_metal5
    layer_metal5_pin' layer_topmetal1' layer_topmetal1_pin' layer_vmim'
    layer_cont' layer_psd' layer_pwellblock layers_no_qrc
  = rfcmim width length capacitance model
      layer_activ layer_mim layer_metal1 layer_metal1_pin layer_metal5
      layer_metal5_pin layer_topmetal1 layer_topmetal1_pin layer_vmim
      layer_cont layer_psd layer_pwellblock layers_no_qrc /\
  forall r,
    In r (refs (rfcmim width length capacitance model
                  layer_activ layer_mim layer_metal1 layer_metal1_pin layer_metal5
                  layer_metal5_pin layer_topmetal1 layer_topmetal1_pin layer_vmim
                  layer_cont layer_psd layer_pwellblock layers_no_qrc)) ->
    layer (cell r) = layer_mim \/ layer (cell r) = layer_pwellblock \/
    layer (cell r) = layer_metal5 \/ In (layer (cell r)) layers_no_qrc.
Proof.
  split; [by rewrite !rfcmim_closed_form|].
  rewrite rfcmim_closed_form. cbv zeta. cbn [refs app].
  intros r [<-|[<-|Hr]]; [by left|by right; left|].
  apply in_app_or in Hr as [Hr|[<-|[]]]; [|by right; right; left].
  apply in_flat_map in Hr as (ly & Hly & [<-|[]]). by right; right; right.
Qed.

End rfcmim_nest.

(** ** npn13G2: spacing and offsets *)

Section npn13G2_spacing.
Import gf bjt_transistors.

Variables (STI baspolyx bipwinx bipwiny empolyx empolyy : Q).
Variables (emitter_length emitter_width : Q) (Nx Ny : Z) (text : string).
Variables (CMetY1 CMetY2 : Q) (extra_argument_for_naming : option string).

(** X12.  With [Nx <= 0], [npn13G2] returns an empty component: no
    rectangle, no port, no info. *)
Theorem npn13G2_empty_without_columns :
  (Nx <= 0)%Z ->
  npn13G2 STI baspolyx bipwinx bipwiny empolyx empolyy emitter_length
    emitter_width Nx Ny text CMetY1 CMetY2 extra_argument_for_naming = gf.new.
Proof.
  intros HNx. rewrite npn13G2_closed_form. unfold via_array, py.range.
  by replace (Z.to_nat Nx) with 0%nat by lia.
Qed.

(** X13.  Any two different vias of [npn13G2] are at least 0.22 apart, along
    X or along Y: the two vias of a pair are 0.22 apart, rows are 0.41 and
    column steps 1.85 from one another, and a via is 0.19 wide. *)
Theorem npn13G2_vias_apart :
  let c := npn13G2 STI baspolyx bipwinx bipwiny empolyx empolyy emitter_length
             emitter_width Nx Ny text CMetY1 CMetY2 extra_argument_for_naming in
  forall r r', In r (refs c) -> In r' (refs c) -> r <> r' -> apart 0.22 r r'.
Proof.
  intros c r r' Hr Hr' Hne. subst c. rewrite npn13G2_closed_form in Hr, Hr'.
  cbn [refs] in Hr, Hr'.
  apply via_array_elem in Hr as (ix & iy & _ & _ & Hr).
  apply via_array_elem in Hr' as (ix' & iy' & _ & _ & Hr').
  unfold apart, x_max, y_max, x_min, y_min.
  destruct (Z.lt_trichotomy iy iy') as [Hy|[Hy|Hy]].
  - (* [r] is in a row above [r'] *)
    apply inject_Z_succ_le in Hy. right. right. right.
    destruct Hr as [<-|[<-|[]]], Hr' as [<-|[<-|[]]];
      cbn [cell at_ size centered fst snd placed]; lra.
  - subst iy'. destruct (Z.lt_trichotomy ix ix') as [Hx|[Hx|Hx]].
    + apply inject_Z_succ_le in Hx. left.
      destruct Hr as [<-|[<-|[]]], Hr' as [<-|[<-|[]]];
        cbn [cell at_ size centered fst snd placed]; lra.
    + subst ix'.
      destruct Hr as [<-|[<-|[]]], Hr' as [<-|[<-|[]]]; try done;
        cbn [cell at_ size centered fst snd placed]; [left|right; left]; lra.
    + apply inject_Z_succ_le in Hx. right. left.
      destruct Hr as [<-|[<-|[]]], Hr' as [<-|[<-|[]]];
        cbn [cell at_ size centered fst snd placed]; lra.
  - apply inject_Z_succ_le in Hy. right. right. left.
    destruct Hr as [<-|[<-|[]]], Hr' as [<-|[<-|[]]];
      cbn [cell at_ size centered fst snd placed]; lra.
Qed.

(** X14.  Raising [bipwiny] by [db] and [empolyy] by [de] moves every via of
    [npn13G2] up by [db + de] and changes nothing else: the same vias, in
    the same order, at the same X. *)
Theorem npn13G2_offsets_add (db de : Q) :
  Forall2 (moved_up (db + de))
    (refs (npn13G2 STI baspolyx bipwinx bipwiny empolyx empolyy emitter_length
             emitter_width Nx Ny text CMetY1 CMetY2 extra_argument_for_naming))
    (refs (npn13G2 STI baspolyx bipwinx (bipwiny + db) empolyx (empolyy + de)
             emitter_length emitter_width Nx Ny text CMetY1 CMetY2
             extra_argument_for_naming)).
Proof.
  rewrite !npn13G2_closed_form. cbn [refs]. unfold via_array.
  apply Forall2_flat_map_same. intros ix.
  apply Forall2_flat_map_same. intros iy. unfold via_pair. cbv zeta.
  constructor; [|constructor; [|constructor]];
    (split; [reflexivity|]; split; [by split|];
     unfold x_min, y_min; cbn [cell at_ size centered fst snd placed];
     split; [reflexivity|field]).
Qed.

(** X25.  The component [npn13G2] returns depends on [Nx], [bipwiny] and
    [empolyy] only: [Ny], the emitter length and width, and the other eleven
    arguments have no effect, and the array always has four rows. *)
Theorem npn13G2_unused_arguments
    (STI' baspolyx' bipwinx' empolyx' emitter_length' emitter_width' : Q)
    (Ny' : Z) (text' : string) (CMetY1' CMetY2' : Q)
    (extra_argument_for_naming' : option string) :
  npn13G2 STI' baspolyx' bipwinx' bipwiny empolyx' empolyy emitter_length'
    emitter_width' Nx Ny' text' CMetY1' CMetY2' extra_argument_for_naming'
  = npn13G2 STI baspolyx bipwinx bipwiny empolyx empolyy emitter_length
      emitter_width Nx Ny text CMetY1 CMetY2 extra_argument_for_naming /\
  List.length
    (refs (npn13G2 STI baspolyx bipwinx bipwiny empolyx empolyy emitter_length
             emitter_width Nx Ny text CMetY1 CMetY2 extra_argument_for_naming))
  = (Z.to_nat Nx * 4 * 2)%nat.
Proof.
  rewrite !npn13G2_closed_form. split; [done|]. cbn [refs].
  rewrite via_array_length. lia.
Qed.

End npn13G2_spacing.

(** X12 at [Nx = 0]. *)
Lemma npn13G2_empty_without_columns_witness :
  (0 <= 0)%Z /\
  bjt_transistors.npn13G2 0.44 0.3 0.07 0.1 0.15 0.18 0.9 0.7 0 1 "npn13G2" 0 0 None
    = gf.new.
Proof.
  split; [lia|].
  exact (npn13G2_empty_without_columns 0.44 0.3 0.07 0.1 0.15 0.18 0.9 0.7 0 1
           "npn13G2" 0 0 None ltac:(lia)).
Defined.

(** * Further properties of the utilities *)

(** ** upload_simulation_dir: what it leaves on the disk *)

Section upload_frame.
Import sim_utils.
Context {JobDefinition PreJob : Type}.
Variable fault : list (@Event JobDefinition) -> @Call JobDefinition -> option Exn.
Variable upload_reply : Data -> JobDefinition -> PreJob.

Local Abbreviation M := (@sim_utils.M JobDefinition).
Local Abbreviation World := (@sim_utils.World JobDefinition).

Lemma keeps_ret {A : Type} (a : A) : keeps_other_files (mret a : M A).
Proof. by intros w. Qed.

Lemma keeps_lib {A : Type} c (sem : Disk -> Res A * Disk) :
  (forall d, cwd (snd (sem d)) = cwd d /\
             forall k, k <> zip_key d -> files (snd (sem d)) !! k = files d !! k) ->
  keeps_other_files (lib fault c sem).
Proof.
  intros Hsem w. unfold lib. destruct (fault (trace w) c); [done|].
  specialize (Hsem (disk w)). by destruct (sem (disk w)) as [[a|e] d].
Qed.

Lemma keeps_bind {A B : Type} (m : M A) (f : A -> M B) :
  keeps_other_files m -> (forall a, keeps_other_files (f a)) ->
  keeps_other_files (m ≫= f).
Proof.
  intros Hm Hf w. rewrite bind_unfold. destruct (Hm w) as [Hcwd Hfiles].
  destruct (m w) as [[a|e] w1]; simpl in *; [|done].
  destruct (Hf a w1) as [Hcwd' Hfiles'].
  assert (zip_key (disk w1) = zip_key (disk w)) as Hkey
    by (unfold zip_key; by rewrite Hcwd).
  split; [congruence|]. intros k Hk. rewrite Hfiles' by congruence. by apply Hfiles.
Qed.

Lemma keeps_for_each {A : Type} (xs : list A) (body : A -> M unit) :
  (forall x, keeps_other_files (body x)) -> keeps_other_files (for_each xs body).
Proof.
  intros Hbody. induction xs as [|x xs IH]; simpl; [apply keeps_ret|].
  apply keeps_bind; [apply Hbody|]. intros _. apply IH.
Qed.

Lemma keeps_ZipFile : keeps_other_files (ZipFile fault zip_path).
Proof.
  apply keeps_lib. intros d. cbv zeta.
  change (resolve d zip_path) with (zip_key d).
  destruct (files d !! zip_key d) as [[|]|];
    destruct (files d !! removelast (zip_key d)) as [[|]|]; simpl;
    (split; [done|]); intros k Hk; by rewrite ?lookup_insert_ne.
Qed.

Lemma keeps_ZipFile_exit : keeps_other_files (ZipFile_exit fault zip_path).
Proof.
  apply keeps_lib. intros d. cbv zeta.
  change (resolve d zip_path) with (zip_key d).
  destruct (open_zips d !! zip_key d); simpl; (split; [done|]);
    intros k Hk; by rewrite ?lookup_insert_ne.
Qed.

Lemma keeps_with_ZipFile {A : Type} (body : Path -> M A) :
  (forall zf, keeps_other_files (body zf)) ->
  keeps_other_files (with_ZipFile fault zip_path body).
Proof.
  intros Hbody w. unfold with_ZipFile.
  destruct (keeps_ZipFile w) as [Hc1 Hf1].
  destruct (ZipFile fault zip_path w) as [[[]|e] w1]; simpl in *; [|done].
  destruct (Hbody zip_path w1) as [Hc2 Hf2].
  destruct (keeps_ZipFile_exit (snd (body zip_path w1))) as [Hc3 Hf3].
  assert (zip_key (disk w1) = zip_key (disk w)) as Hk1
    by (unfold zip_key; by rewrite Hc1).
  assert (zip_key (disk (snd (body zip_path w1))) = zip_key (disk w)) as Hk2
    by (unfold zip_key; by rewrite Hc2, Hc1).
  assert (cwd (disk (snd (ZipFile_exit fault zip_path (snd (body zip_path w1)))))
          = cwd (disk w) /\
          forall k, k <> zip_key (disk w) ->
            files (disk (snd (ZipFile_exit fault zip_path (snd (body zip_path w1))))) !! k
            = files (disk w) !! k) as Hall.
  { split; [congruence|]. intros k Hk.
    rewrite Hf3, Hf2 by congruence. by apply Hf1. }
  destruct (body zip_path w1) as [[a|e] w2]; simpl in *;
    by destruct (ZipFile_exit fault zip_path w2) as [[[]|e'] w3].
Qed.

(** X15.  However a run of [upload_simulation_dir] ends, with a value or
    with an error raised at any point, it has not changed the working
    directory and has created, changed or removed no file other than
    [simulation_zipfile.zip] in the working directory. *)
Theorem upload_simulation_dir_keeps_other_files
    (input_dir : Path) (job_definition : JobDefinition) (w : World) :
  let run := upload_simulation_dir fault upload_reply input_dir job_definition w in
  cwd (disk (snd run)) = cwd (disk w) /\
  forall k, k <> cwd (disk w) ++ ["simulation_zipfile.zip"] ->
    files (disk (snd run)) !! k = files (disk w) !! k.
Proof.
  intros run. subst run. revert w.
  change (keeps_other_files
            (upload_simulation_dir fault upload_reply input_dir job_definition)).
  rewrite upload_simulation_dir_unfold.
  apply keeps_bind.
  - apply keeps_with_ZipFile. intros zf. unfold zip_all.
    apply keeps_bind.
    { apply keeps_lib. intros d. cbv zeta.
      by destruct (files d !! resolve d input_dir) as [[|]|]. }
    intros paths. apply keeps_for_each. intros file. unfold zip_one.
    apply keeps_bind.
    { apply keeps_lib. intros d.
      by destruct (files d !! resolve d file) as [[|]|]. }
    intros [|]; [|apply keeps_ret].
    apply keeps_bind.
    { apply keeps_lib. intros d. by destruct (bool_decide _). }
    intros arcname. apply keeps_lib. intros d.
    destruct (open_zips d !! resolve d zf); [|done].
    by destruct (files d !! resolve d file) as [[|]|].
  - intros _. apply keeps_bind.
    { intros w. unfold upload_simulation.
      apply (keeps_lib _ (fun d => _)). intros d.
      by destruct (files (disk w) !! resolve (disk w) zip_path) as [[|]|]. }
    intros pre_job. apply keeps_bind; [|intros _; apply keeps_ret].
    apply keeps_lib. intros d. cbv zeta.
    change (resolve d zip_path) with (zip_key d).
    destruct (files d !! zip_key d) as [[|]|]; simpl; (split; [done|]);
      intros k Hk; by rewrite ?lookup_delete_ne.
Qed.

End upload_frame.

(** ** upload_simulation_dir: the run in which no call fails *)

Section upload_quiet.
Import sim_utils.
Context {JobDefinition PreJob : Type}.
Variable upload_reply : Data -> JobDefinition -> PreJob.

Local Abbreviation M := (@sim_utils.M JobDefinition).
Local Abbreviation World := (@sim_utils.World JobDefinition).
Local Abbreviation Event := (@sim_utils.Event JobDefinition).

Lemma lib_quiet {A : Type} c (sem : Disk -> Res A * Disk) (w : World) :
  lib quiet c sem w =
  match sem (disk w) with
  | (Ok a, d) => (Ok a, log (c, None) d w)
  | (Raise e, d) => (Raise e, log (c, Some e) d w)
  end.
Proof. reflexivity. Qed.

(** One round of the loop goes through when the archive is open. *)
Lemma zip_one_quiet (input_dir : Path) (k : list string) (w : World)
    (ms : list (list string * Data)) :
  let d := disk w in
  let base := resolve d input_dir in
  base `prefix_of` k ->
  open_zips d !! zip_key d = Some ms ->
  exists w', zip_one quiet input_dir zip_path (yielded input_dir base k) w = (Ok tt, w').
Proof.
  intros d base Hpre Hms. subst base. unfold zip_one.
  rewrite bind_unfold. unfold is_file. rewrite lib_quiet. fold d.
  rewrite (resolve_yielded d input_dir k Hpre).
  destruct (files d !! k) as [[data|]|] eqn:Hk; [|by eexists..].
  rewrite bind_unfold. unfold relative_to. rewrite lib_quiet.
  rewrite bool_decide_eq_true_2 by (split; [done|by apply prefix_app_r]).
  unfold ZipFile_write_. rewrite lib_quiet. cbn [disk log].
  rewrite (resolve_yielded d input_dir k Hpre), Hk.
  change (resolve d zip_path) with (zip_key d). rewrite Hms. by eexists.
Qed.

Lemma zip_loop_quiet (input_dir : Path) (ks : list (list string)) :
  forall (w : World) (ms : list (list string * Data)),
  let d := disk w in
  let base := resolve d input_dir in
  Forall (fun k => base `prefix_of` k) ks ->
  open_zips d !! zip_key d = Some ms ->
  exists w',
    for_each (map (yielded input_dir base) ks) (zip_one quiet input_dir zip_path) w
    = (Ok tt, w').
Proof.
  induction ks as [|k ks IH]; intros w ms d base Hks Hms; [by eexists|].
  apply Forall_cons in Hks as [Hk Hks]. cbn [map for_each].
  rewrite bind_unfold.
  destruct (zip_one_quiet input_dir k w ms Hk Hms) as [w1 H1]. fold d base in H1.
  rewrite H1.
  apply (zip_one_Ok quiet input_dir k w w1 ms Hk Hms) in H1. fold d base in H1.
  assert (cwd (disk w1) = cwd d) as Hcwd by (by rewrite H1).
  assert (resolve (disk w1) input_dir = base) as Hbase
    by (unfold base, resolve; by rewrite Hcwd).
  assert (zip_key (disk w1) = zip_key d) as Hkey
    by (unfold zip_key; by rewrite Hcwd).
  specialize (IH w1 (ms ++ member_of (files d) base k)).
  cbv zeta in IH. rewrite Hbase, Hkey in IH. apply IH; [done|].
  rewrite H1. apply lookup_insert_eq.
Qed.

(** The [with] block goes through when the archive can be created. *)
Lemma zip_phase_quiet (input_dir : Path) (w : World) :
  let d := disk w in
  files d !! cwd d = Some Dir ->
  files d !! zip_key d <> Some Dir ->
  exists w', with_ZipFile quiet zip_path (zip_all quiet input_dir) w = (Ok tt, w').
Proof.
  intros d Hcwd Hkey. unfold with_ZipFile.
  set (fs1 := <[zip_key d := File Unfinished]> (files d)).
  set (d1 := set_open_zips (set_files d fs1) (<[zip_key d := []]> (open_zips d))).
  assert (ZipFile quiet zip_path w = (Ok tt, log (ZipFile_open zip_path, None) d1 w))
    as ->.
  { unfold ZipFile. rewrite lib_quiet. fold d. cbv zeta.
    change (resolve d zip_path) with (zip_key d).
    replace (removelast (zip_key d)) with (cwd d)
      by (unfold zip_key; by rewrite removelast_last).
    rewrite Hcwd. by destruct (files d !! zip_key d) as [[|]|]. }
  set (w1 := log (ZipFile_open zip_path, None) d1 w).
  unfold zip_all. rewrite bind_unfold. unfold rglob_star. rewrite lib_quiet.
  cbv zeta.
  set (paths := match files (disk w1) !! resolve (disk w1) input_dir with
                | Some Dir => _ | _ => _ end).
  assert (paths = (Ok (map (yielded input_dir (resolve (disk w1) input_dir))
                         (scanned (files (disk w1)) (resolve (disk w1) input_dir))),
                   disk w1)) as ->.
  { subst paths. unfold scanned.
    by destruct (files (disk w1) !! resolve (disk w1) input_dir) as [[|]|]. }
  set (w2 := log _ (disk w1) w1).
  destruct (zip_loop_quiet input_dir
              (scanned (files (disk w1)) (resolve (disk w1) input_dir)) w2 [])
    as [w3 Hloop]; [apply scanned_prefix|apply lookup_insert_eq|].
  change (disk w2) with (disk w1) in Hloop. rewrite Hloop.
  unfold ZipFile_exit. rewrite lib_quiet. cbv zeta.
  destruct (open_zips (disk w3) !! resolve (disk w3) zip_path); by eexists.
Qed.

(** The whole run goes through, with the reply of the service. *)
Lemma upload_simulation_dir_quiet_run
    (input_dir : Path) (job_definition : JobDefinition) (w : World) :
  let d := disk w in
  files d !! cwd d = Some Dir ->
  files d !! zip_key d <> Some Dir ->
  let run := upload_simulation_dir quiet upload_reply input_dir job_definition w in
  let members :=
    archived (<[zip_key d := File Unfinished]> (files d)) (resolve d input_dir) in
  fst run = Ok (upload_reply (Archive members) job_definition) /\
  cwd (disk (snd run)) = cwd d /\
  files (disk (snd run)) = delete (zip_key d) (files d) /\
  exists evs, trace (snd run) = trace w ++ evs /\ Forall succeeded evs.
Proof.
  intros d Hcwd Hkey run members.
  assert (exists pre_job, fst run = Ok pre_job) as [pre_job Hok].
  { subst run. rewrite upload_simulation_dir_unfold, bind_unfold.
    destruct (zip_phase_quiet input_dir w Hcwd Hkey) as [w1 Hzip]. rewrite Hzip.
    apply zip_phase_Ok in Hzip as [Hcwd1 Hfiles1]. fold d in Hcwd1, Hfiles1.
    assert (files (disk w1) !! resolve (disk w1) zip_path
            = Some (File (Archive members))) as Hlook.
    { change (resolve (disk w1) zip_path) with (cwd (disk w1) ++ ["simulation_zipfile.zip"]).
      rewrite Hcwd1, Hfiles1. apply lookup_insert_eq. }
    rewrite bind_unfold. unfold upload_simulation. rewrite lib_quiet, Hlook.
    rewrite bind_unfold. unfold unlink. rewrite lib_quiet. cbv zeta.
    cbn [disk log]. rewrite Hlook. by eexists. }
  destruct (upload_simulation_dir_run quiet upload_reply input_dir job_definition w)
    as (evs & Htr & Hrun).
  fold run in Htr, Hrun. fold d in Hrun.
  destruct (upload_simulation_dir_propagates quiet upload_reply input_dir
              job_definition w) as (evs' & Htr' & Hres).
  fold run in Htr', Hres. rewrite Hok in Hres.
  destruct Hrun as [e Hr Hcalls|e evs1 d0 members0 Hr Hcalls -> Hcwd' Hfiles
                   |e evs1 d0 members0 Hr Hcalls -> Hcwd' Hfiles
                   |evs1 d0 members0 Hr Hcalls -> Hcwd' Hfiles];
    try congruence.
  split; [done|]. split; [done|]. split; [done|]. by exists evs'.
Qed.

(** X16.  When no library call fails, the working directory exists and
    [simulation_zipfile.zip] in it is not a directory, [upload_simulation_dir]
    returns what the upload service answers for the archive, every call it
    made succeeded, and the disk is afterwards as before except that no
    [simulation_zipfile.zip] is left in the working directory: a file of
    that name that was there before the call is gone. *)
Theorem upload_simulation_dir_returns
    (input_dir : Path) (job_definition : JobDefinition) (w : World) :
  let d := disk w in
  files d !! cwd d = Some Dir ->
  files d !! (cwd d ++ ["simulation_zipfile.zip"]) <> Some Dir ->
  let run := upload_simulation_dir quiet upload_reply input_dir job_definition w in
  (exists members, fst run = Ok (upload_reply (Archive members) job_definition)) /\
  cwd (disk (snd run)) = cwd d /\
  files (disk (snd run)) = delete (cwd d ++ ["simulation_zipfile.zip"]) (files d) /\
  exists evs, trace (snd run) = trace w ++ evs /\ Forall succeeded evs.
Proof.
  intros d Hcwd Hkey run.
  destruct (upload_simulation_dir_quiet_run input_dir job_definition w Hcwd Hkey)
    as (Hok & Hc & Hf & Hev).
  split; [by eexists|]. by repeat split.
Qed.


End upload_quiet.

(** ** Runs in which no call fails *)

Section quiet_runs.
Import sim_utils.
Context {JobDefinition : Type}.

Local Abbreviation M := (@sim_utils.M JobDefinition).
Local Abbreviation World := (@sim_utils.World JobDefinition).
Local Abbreviation Call := (@sim_utils.Call JobDefinition).

Lemma runs_ret {A : Type} (a : A) : runs_as (mret a : M A) a [].
Proof. intros [d t]. unfold mret, M_ret. simpl. by rewrite app_nil_r. Qed.

Lemma runs_lib_pure {A : Type} (c : Call) (a : A) :
  runs_as (lib_pure quiet c a) a [c].
Proof. by intros w. Qed.

Lemma runs_bind {A B : Type} (m : M A) (f : A -> M B) (a : A) (b : B)
    (cs cs' : list Call) :
  runs_as m a cs -> runs_as (f a) b cs' -> runs_as (m ≫= f) b (cs ++ cs').
Proof.
  intros Hm Hf w. rewrite bind_unfold, Hm, Hf. simpl.
  by rewrite map_app, app_assoc.
Qed.

Lemma runs_for_each {A : Type} (xs : list A) (body : A -> M unit)
    (calls : A -> list Call) :
  (forall x, runs_as (body x) tt (calls x)) ->
  runs_as (for_each xs body) tt (flat_map calls xs).
Proof.
  intros Hbody. induction xs as [|x xs IH]; simpl; [apply runs_ret|].
  by apply (runs_bind _ _ tt).
Qed.

Lemma runs_as_calls {A : Type} (m : M A) (a : A) (cs cs' : list Call) :
  runs_as m a cs -> cs = cs' -> runs_as m a cs'.
Proof. by intros H <-. Qed.

Lemma flat_map_singleton {A B : Type} (f : A -> B) (xs : list A) :
  flat_map (fun x => [f x]) xs = map f xs.
Proof. induction xs as [|x xs IH]; simpl; [done|by rewrite IH]. Qed.

End quiet_runs.

(** ** print_job_summary *)

Section job_summary.
Import sim_utils.
Context {JobDefinition : Type}.

Local Abbreviation M := (@sim_utils.M JobDefinition).
Local Abbreviation Call := (@sim_utils.Call JobDefinition).

(** The calls of a summary: six lines, then one line per output file. *)
Lemma print_job_summary_runs (job : Job) :
  exists duration size_str,
    runs_as (print_job_summary (JobDefinition := JobDefinition) quiet job) tt
      (map print
         ([ "Job:         " +:+ job_name job;
            "Status:      " +:+ status_value job +:+ " (exit " +:+
              pretty (exit_code job) +:+ ")";
            "Duration:    " +:+ duration;
            "Resources:   " +:+ pretty (requested_cpu job) +:+ " CPU / " +:+
              pretty (requested_memory_mb job `div` 1024)%Z +:+ " GB";
            "Output:      " +:+ size_str;
            "Files:       " +:+
              pretty (List.length (default [] (download_urls job))) +:+ " files" ] ++
          map (fun kv => "             - " +:+ fst kv)
            (default [] (download_urls job)))) /\
    duration =
      match started_at job, finished_at job with
      | Some started, Some finished =>
          pretty (int_of_float (finished - started) `div` 60)%Z +:+ "m " +:+
          pretty (int_of_float (finished - started) `mod` 60)%Z +:+ "s"
      | _, _ => "N/A"
      end /\
    size_str =
      if Qlt_le_dec (inject_Z (output_size_bytes job) / 1024) 1024
      then format_f 1 (inject_Z (output_size_bytes job) / 1024) +:+ " KB"
      else format_f 2 (inject_Z (output_size_bytes job) / 1024 / 1024) +:+ " MB".
Proof.
  eexists _, _. split; [|split; reflexivity].
  unfold print_job_summary. cbv zeta.
  eapply runs_as_calls.
  { repeat (eapply (runs_bind _ _ tt); [apply runs_lib_pure|]).
    apply runs_for_each. intros f. apply runs_lib_pure. }
  rewrite flat_map_singleton, map_app.
  destruct (download_urls job) as [[|kv kvs]|]; unfold default;
    rewrite ?map_map, ?length_map; reflexivity.
Qed.

(** [int] on a float drops the fraction, towards zero. *)
Lemma int_of_float_spec (x : Q) :
  (0 <= x -> inject_Z (int_of_float x) <= x < inject_Z (int_of_float x) + 1) /\
  (x < 0 -> inject_Z (int_of_float x) - 1 < x <= inject_Z (int_of_float x)).
Proof.
  unfold int_of_float. destruct (Qlt_le_dec x 0) as [Hneg|Hpos]; split; intros H.
  - lra.
  - split; [|apply Qle_ceiling].
    pose proof (Qceiling_lt x) as Hlt.
    assert (inject_Z (Qceiling x - 1) == inject_Z (Qceiling x) - 1) as E
      by (unfold Qeq; simpl; lia).
    by rewrite <- E.
  - split; [apply Qfloor_le|].
    pose proof (Qlt_floor x) as Hlt.
    assert (inject_Z (Qfloor x + 1) == inject_Z (Qfloor x) + 1) as E
      by (unfold Qeq; simpl; lia).
    by rewrite <- E.
  - lra.
Qed.

Lemma Qdiv_1024 (x : Q) : x / 1024 == x * (1 # 1024).
Proof. field. Qed.

(** X18.  When no call fails, [print_job_summary] returns after printing six
    lines followed by one line per key of [download_urls], in the order of
    the keys; the number in the [Files:] line is the number of these lines.
    With [download_urls] absent or empty that number is 0 and the [Files:]
    line is the last one. *)
Theorem print_job_summary_file_lines (job : Job) :
  let urls := default [] (download_urls job) in
  exists head,
    runs_as (print_job_summary (JobDefinition := JobDefinition) quiet job) tt
      (map print (head ++ map (fun kv => "             - " +:+ fst kv) urls)) /\
    List.length head = 6%nat /\
    head !! 0%nat = Some ("Job:         " +:+ job_name job) /\
    head !! 5%nat =
      Some ("Files:       " +:+ pretty (List.length urls) +:+ " files").
Proof.
  intros urls. destruct (print_job_summary_runs job) as (duration & size_str & Hrun & _).
  eexists. split; [exact Hrun|]. by repeat split.
Qed.

(** X19.  The third line of the summary is [Duration:    N/A] when the job
    has no start or no end time.  Otherwise it reads [<m>m <s>s], where the
    elapsed time, its fraction dropped towards zero, is [60 * m + s] seconds
    with [0 <= s < 60].  When the end lies before the start by a second to
    a minute, [m] is -1 and [s] is not negative; by less than a second, the
    line reads [0m 0s]. *)
Theorem print_job_summary_duration (job : Job) :
  exists lines duration,
    runs_as (print_job_summary (JobDefinition := JobDefinition) quiet job) tt
      (map print lines) /\
    lines !! 2%nat = Some ("Duration:    " +:+ duration) /\
    (started_at job = None \/ finished_at job = None -> duration = "N/A") /\
    (forall started finished,
       started_at job = Some started -> finished_at job = Some finished ->
       let delta := finished - started in
       exists total m s : Z,
         duration = pretty m +:+ "m " +:+ pretty s +:+ "s" /\
         (total = 60 * m + s)%Z /\ (0 <= s < 60)%Z /\
         (0 <= delta -> inject_Z total <= delta < inject_Z total + 1) /\
         (delta < 0 -> inject_Z total - 1 < delta <= inject_Z total) /\
         (-60 <= delta < 0 -> m = if Qlt_le_dec (-1) delta then 0%Z else (-1)%Z)).
Proof.
  destruct (print_job_summary_runs job) as (duration & size_str & Hrun & Hd & _).
  eexists _, duration. split; [exact Hrun|]. split; [done|]. split.
  - intros [H|H]; rewrite H in Hd; [done|]. by destruct (started_at job).
  - intros started finished Hs Hf delta. rewrite Hs, Hf in Hd. fold delta in Hd.
    exists (int_of_float delta), (int_of_float delta `div` 60)%Z,
           (int_of_float delta `mod` 60)%Z.
    split; [done|]. split; [apply Z.div_mod; lia|].
    split; [apply Z.mod_pos_bound; lia|].
    destruct (int_of_float_spec delta) as [Hpos Hneg].
    split; [done|]. split; [done|].
    intros [Hlo Hhi]. specialize (Hneg Hhi) as [H1 H2].
    set (total := int_of_float delta) in *.
    assert (-60 <= total <= 0)%Z as Hrange.
    { split.
      - apply Z.lt_succ_r. rewrite Zlt_Qlt.
        assert (inject_Z (Z.succ total) == inject_Z total + 1) as ->
          by (unfold Qeq; simpl; lia).
        change (inject_Z (-60)) with (-60). lra.
      - apply Z.lt_succ_r. rewrite Zlt_Qlt.
        assert (inject_Z (Z.succ 0) == 1) as -> by done.
        lra. }
    destruct (Qlt_le_dec (-1) delta) as [Hd1|Hd1].
    + assert (total = 0)%Z as ->; [|done].
      assert (-1 < total)%Z; [|lia]. rewrite Zlt_Qlt.
      change (inject_Z (-1)) with (-1). lra.
    + assert (total <= -1)%Z as Hle.
      { apply Z.lt_succ_r. rewrite Zlt_Qlt.
        assert (inject_Z (Z.succ (-1)) == 0) as -> by done. lra. }
      symmetry. apply Z.div_unique with (r := (total + 60)%Z); lia.
Qed.

(** X20.  The fifth line of the summary gives the output size in KB with one
    decimal when [output_size_bytes] is below 1048576, and in MB with two
    decimals from there on.  Sizes from 1048525 to 1048575 bytes are
    therefore printed as [1024.0 KB]. *)
Theorem print_job_summary_output_size (job : Job) :
  let bytes := output_size_bytes job in
  exists lines size_str,
    runs_as (print_job_summary (JobDefinition := JobDefinition) quiet job) tt
      (map print lines) /\
    lines !! 4%nat = Some ("Output:      " +:+ size_str) /\
    ((bytes < 1048576)%Z ->
       size_str = format_f 1 (inject_Z bytes / 1024) +:+ " KB") /\
    ((1048576 <= bytes)%Z ->
       size_str = format_f 2 (inject_Z bytes / 1024 / 1024) +:+ " MB") /\
    ((1048525 <= bytes < 1048576)%Z -> size_str = "1024.0 KB").
Proof.
  intros bytes.
  destruct (print_job_summary_runs job) as (duration & size_str & Hrun & _ & Hs).
  fold bytes in Hs.
  eexists _, size_str. split; [exact Hrun|]. split; [done|].
  assert ((bytes < 1048576)%Z ->
          size_str = format_f 1 (inject_Z bytes / 1024) +:+ " KB") as Hkb.
  { intros Hlt. rewrite Hs. destruct (Qlt_le_dec _ _) as [_|Hge]; [done|].
    exfalso. rewrite Zlt_Qlt in Hlt. change (inject_Z 1048576) with 1048576 in Hlt.
    rewrite Qdiv_1024 in Hge. lra. }
  split; [done|]. split.
  - intros Hge. rewrite Hs. destruct (Qlt_le_dec _ _) as [Hlt|_]; [|done].
    exfalso. rewrite Zle_Qle in Hge. change (inject_Z 1048576) with 1048576 in Hge.
    rewrite Qdiv_1024 in Hlt. lra.
  - intros [Hlo Hhi]. rewrite (Hkb Hhi). unfold format_f. cbv zeta.
    assert (py.round (inject_Z bytes / 1024 * inject_Z (10 ^ Z.of_nat 1)) = 10240%Z)
      as ->; [|by vm_compute].
    rewrite Zle_Qle in Hlo. rewrite Zlt_Qlt in Hhi.
    change (inject_Z 1048525) with 1048525 in Hlo.
    change (inject_Z 1048576) with 1048576 in Hhi.
    change (inject_Z (10 ^ Z.of_nat 1)) with 10.
    set (y := inject_Z bytes / 1024 * 10).
    assert (10239.5 < y < 10240) as [Hy1 Hy2]
      by (subst y; rewrite Qdiv_1024; lra).
    pose proof (round_near y) as Hnear.
    assert (10239 < py.round y)%Z as Hr1.
    { rewrite Zlt_Qlt. change (inject_Z 10239) with 10239. lra. }
    assert (py.round y < 10241)%Z as Hr2.
    { rewrite Zlt_Qlt. change (inject_Z 10241) with 10241. lra. }
    lia.
Qed.

End job_summary.

(** ** plot_mesh_pv *)

Section dict_facts.
Context {K V : Type} `{EqDecision K}.

Lemma dict_get_set (d : list (K * V)) (k k' : K) (v : V) :
  py.dict_get (py.dict_set d k v) k' =
  if decide (k' = k) then Some v else py.dict_get d k'.
Proof.
  induction d as [|[k0 v0] d IH]; simpl; [done|].
  destruct (decide (k = k0)) as [->|Hne]; simpl.
  - by destruct (decide (k' = k0)).
  - rewrite IH. destruct (decide (k' = k0)) as [->|]; [|done].
    destruct (decide (k0 = k)); congruence.
Qed.

Lemma dict_set_keys (d : list (K * V)) (k k' : K) (v : V) :
  k' ∈ map fst (py.dict_set d k v) <-> k' = k \/ k' ∈ map fst d.
Proof.
  induction d as [|[k0 v0] d IH]; simpl.
  - rewrite list_elem_of_singleton, elem_of_nil. tauto.
  - destruct (decide (k = k0)) as [->|Hne]; simpl; rewrite !elem_of_cons, ?IH; tauto.
Qed.

Lemma dict_set_NoDup (d : list (K * V)) (k : K) (v : V) :
  NoDup (map fst d) -> NoDup (map fst (py.dict_set d k v)).
Proof.
  induction d as [|[k0 v0] d IH]; simpl; intros Hnd; [apply NoDup_singleton|].
  apply NoDup_cons in Hnd as [Hk0 Hnd].
  destruct (decide (k = k0)) as [->|Hne]; simpl; [by apply NoDup_cons|].
  apply NoDup_cons. split; [|by apply IH].
  rewrite dict_set_keys. by intros [->|?].
Qed.

Lemma dict_get_elem (d : list (K * V)) (k : K) (v : V) :
  NoDup (map fst d) -> (k, v) ∈ d <-> py.dict_get d k = Some v.
Proof.
  induction d as [|[k0 v0] d IH]; simpl; intros Hnd.
  - rewrite elem_of_nil. by split.
  - apply NoDup_cons in Hnd as [Hk0 Hnd]. rewrite elem_of_cons.
    destruct (decide (k = k0)) as [->|Hne].
    + split; [|intros [= ->]; by left].
      intros [[= ->]|Hin]; [done|]. exfalso. apply Hk0.
      apply list_elem_of_fmap. by exists (k0, v).
    + rewrite <- (IH Hnd). split; [|by right]. by intros [[= -> _]|?].
Qed.

End dict_facts.

Section group_map_facts.
Import sim_utils.

Lemma last_name_snoc (fd : list (string * (Z * Z))) (item : string * (Z * Z))
    (t : Z) (name : string) :
  last_name (fd ++ [item]) t name <->
  (fst (snd item) = t /\ fst item = name) \/
  (fst (snd item) <> t /\ last_name fd t name).
Proof.
  split.
  - intros (before & dim & after & Heq & Hafter).
    destruct after as [|a after _] using rev_ind.
    + apply app_inj_tail in Heq as [_ ->]. by left.
    + rewrite app_comm_cons, app_assoc in Heq.
      apply app_inj_tail in Heq as [-> ->].
      apply Forall_app in Hafter as [Hafter Ha]. rewrite Forall_singleton in Ha.
      right. split; [exact Ha|]. by exists before, dim, after.
  - intros [[Ht Hn]|[Hne (before & dim & after & -> & Hafter)]].
    + destruct item as [n [t' dim]]; simpl in *; subst. by exists fd, dim, [].
    + exists before, dim, (after ++ [item]). split; [by rewrite <- app_assoc|].
      apply Forall_app. split; [done|]. by apply Forall_singleton.
Qed.

Lemma group_map_NoDup (fd : list (string * (Z * Z))) :
  NoDup (map fst (group_map_of fd)).
Proof.
  unfold group_map_of.
  assert (NoDup (map fst ([] : list (Z * string)))) as H0 by constructor.
  revert H0. generalize ([] : list (Z * string)).
  induction fd as [|item fd IH]; simpl; intros d0 H0; [done|].
  apply IH. by apply dict_set_NoDup.
Qed.

(** A later name for a tag replaces the earlier one. *)
Lemma group_map_last (fd : list (string * (Z * Z))) (t : Z) (name : string) :
  py.dict_get (group_map_of fd) t = Some name <-> last_name fd t name.
Proof.
  unfold group_map_of. induction fd as [|item fd IH] using rev_ind.
  - simpl. split; [done|]. intros (before & dim & after & H & _). by destruct before.
  - rewrite fold_left_app. simpl. rewrite dict_get_set, last_name_snoc.
    destruct (decide (t = (item.2).1)) as [->|Hne].
    + split; [intros [= ->]; by left|]. by intros [[_ ->]|[? _]].
    + rewrite IH. split; [by right|]. by intros [[? _]|[_ ?]].
Qed.

Lemma shown_ids_NoDup (gm : list (Z * string)) (pats : list string) :
  NoDup (map fst gm) -> NoDup (shown_ids gm pats).
Proof.
  intros Hnd. apply (sublist_NoDup _ (map fst gm)); [done|].
  by apply fmap_sublist, sublist_filter.
Qed.

Lemma shown_ids_elem (gm : list (Z * string)) (pats : list string) (t : Z) :
  t ∈ shown_ids gm pats <->
  exists name, (t, name) ∈ gm /\ existsb (contains name) pats = true.
Proof.
  unfold shown_ids. rewrite list_elem_of_fmap. split.
  - intros ([t' name] & -> & [Hm Hin]%list_elem_of_filter). by exists name.
  - intros (name & Hin & Hm). exists (t, name). split; [done|].
    by apply list_elem_of_filter.
Qed.

(** The tags shown are those whose last name contains a pattern. *)
Lemma shown_ids_spec (fd : list (string * (Z * Z))) (pats : list string) (t : Z) :
  t ∈ shown_ids (group_map_of fd) pats <->
  exists name, last_name fd t name /\ existsb (contains name) pats = true.
Proof.
  rewrite shown_ids_elem. split; intros (name & H & Hm); exists name;
    (split; [|done]).
  - by apply group_map_last, dict_get_elem; [apply group_map_NoDup|].
  - by apply dict_get_elem; [apply group_map_NoDup|apply group_map_last].
Qed.

Lemma snd_imap {A B : Type} (f : nat -> A -> B * A) (l : list A) :
  (forall i x, snd (f i x) = x) -> map snd (imap f l) = l.
Proof.
  revert f. induction l as [|x l IH]; intros f Hf; simpl; [done|].
  rewrite Hf. f_equal. apply IH. intros i y. apply Hf.
Qed.

End group_map_facts.

Section plot_facts.
Import sim_utils.
Context {JobDefinition : Type}.
Variable field_data_of : string -> list (string * (Z * Z)).
Variable n_cells_of : Mesh -> Z.

Local Abbreviation M := (@sim_utils.M JobDefinition).
Local Abbreviation Call := (@sim_utils.Call JobDefinition).
Local Abbreviation Event := (@sim_utils.Event JobDefinition).

Lemma extracted_draw_groups (mesh : Mesh) (gm : list (Z * string))
    (ps : list (nat * Z)) :
  extracted (flat_map (draw_group (JobDefinition := JobDefinition)
                         n_cells_of mesh gm) ps) = map snd ps.
Proof.
  unfold extracted. induction ps as [|p ps IH]; simpl; [done|].
  destruct (0 <? n_cells_of (Subset mesh p.2))%Z; simpl; by rewrite IH.
Qed.

Lemma draw_groups_elem (mesh : Mesh) (gm : list (Z * string)) (ids : list Z)
    (c : Call) :
  c ∈ flat_map (draw_group n_cells_of mesh gm) (imap (fun i gid => (i, gid)) ids) <->
  exists k t, ids !! k = Some t /\ c ∈ draw_group n_cells_of mesh gm (k, t).
Proof.
  rewrite list_elem_of_In, in_flat_map. split.
  - intros ([k t] & Hp & Hc). apply list_elem_of_In, elem_of_lookup_imap in Hp
      as (i & y & [= -> ->] & Hi).
    exists i, y. by rewrite list_elem_of_In.
  - intros (k & t & Hk & Hc). exists (k, t). split; [|by apply list_elem_of_In].
    apply list_elem_of_In. by apply (elem_of_lookup_imap_2 (fun i gid => (i, gid))).
Qed.

Lemma draw_group_runs (mesh : Mesh) (gm : list (Z * string)) (p : nat * Z) :
  runs_as
    ((fun '(i, gid) =>
        subset ← lib_pure quiet (mesh_extract_cells mesh gid) (Subset mesh gid);
        if (0 <? n_cells_of subset)%Z then
          lib_pure quiet
            (plotter_add_mesh subset
               (nth (i mod List.length palette) palette EmptyString)
               (Some (default (pretty gid) (py.dict_get gm gid)))) tt
        else mret tt) p : M unit)
    tt (draw_group n_cells_of mesh gm p).
Proof.
  destruct p as [i gid]. unfold draw_group. cbn [fst snd].
  destruct (0 <? n_cells_of (Subset mesh gid))%Z eqn:E.
  - apply (runs_bind _ _ (Subset mesh gid) tt [_] [_]); [apply runs_lib_pure|].
    rewrite E. apply runs_lib_pure.
  - apply (runs_bind _ _ (Subset mesh gid) tt [_] []); [apply runs_lib_pure|].
    rewrite E. apply runs_ret.
Qed.

(** The calls of a plot, when none fails. *)
Lemma plot_mesh_pv_runs (msh_path output : string)
    (show_groups : option (list string)) (interactive : bool) :
  let mesh := MeshOf msh_path in
  let group_map := group_map_of (field_data_of msh_path) in
  runs_as
    (plot_mesh_pv quiet field_data_of n_cells_of msh_path output show_groups
       interactive) tt
    ([meshio_read msh_path; pv_read msh_path; pv_Plotter (negb interactive);
      plotter_set_background "white"] ++
     match show_groups return list Call with
     | Some (g :: gs) =>
         flat_map (draw_group n_cells_of mesh group_map)
           (imap (fun i gid => (i, gid)) (shown_ids group_map (g :: gs))) ++
         [plotter_add_legend]
     | _ => [plotter_add_mesh mesh "black" None]
     end ++
     [plotter_set_camera_position "iso"] ++ finish interactive output).
Proof.
  intros mesh group_map. unfold plot_mesh_pv.
  destruct interactive, show_groups as [[|g gs]|];
    (eapply runs_as_calls;
     [ eapply runs_bind; [apply runs_lib_pure|]; cbv zeta;
       eapply runs_bind; [apply runs_lib_pure|];
       eapply runs_bind; [apply runs_lib_pure|];
       eapply runs_bind; [apply runs_lib_pure|];
       eapply runs_bind;
         [ first [ apply runs_lib_pure
                 | eapply runs_bind; [|apply runs_lib_pure];
                   apply runs_for_each; intros p; apply draw_group_runs ] |];
       eapply runs_bind; [apply runs_lib_pure|];
       repeat first [ apply runs_lib_pure
                    | eapply runs_bind; [apply runs_lib_pure|] ]
     | reflexivity ]).
Qed.

End plot_facts.

Section plot_properties.
Import sim_utils.
Context {JobDefinition : Type}.
Variable fault : list (@Event JobDefinition) -> @Call JobDefinition -> option Exn.
Variable field_data_of : string -> list (string * (Z * Z)).
Variable n_cells_of : Mesh -> Z.

Local Abbreviation M := (@sim_utils.M JobDefinition).
Local Abbreviation Call := (@sim_utils.Call JobDefinition).

(** X21.  [plot_mesh_pv] keeps its two modes apart in every run, also one
    that ends in an error: with [interactive] it creates an on-screen
    plotter and never takes a screenshot, closes the plotter or displays an
    image; without, the plotter is off screen, [show] is never called, and
    the screenshot and the image displayed are those of [output].  With
    [interactive] the argument [output] has no effect. *)
Theorem plot_mesh_pv_modes (msh_path output output' : string)
    (show_groups : option (list string)) (interactive : bool) :
  calls_only
    (fun c => match c with
              | pv_Plotter off_screen => off_screen = negb interactive
              | plotter_show => interactive = true
              | plotter_close => interactive = false
              | plotter_screenshot o | IPython_Image o | IPython_display o =>
                  interactive = false /\ o = output
              | _ => True
              end)
    (plot_mesh_pv fault field_data_of n_cells_of msh_path output show_groups
       interactive) /\
  plot_mesh_pv fault field_data_of n_cells_of msh_path output show_groups true
  = plot_mesh_pv fault field_data_of n_cells_of msh_path output' show_groups true.
Proof.
  split; [|reflexivity].
  unfold plot_mesh_pv, lib_pure.
  destruct interactive;
    (apply calls_only_bind; [by apply calls_only_lib|]; intros fdata; cbv zeta;
     apply calls_only_bind; [by apply calls_only_lib|]; intros mesh;
     apply calls_only_bind; [by apply calls_only_lib|]; intros _;
     apply calls_only_bind; [by apply calls_only_lib|]; intros _;
     apply calls_only_bind;
     [ destruct show_groups as [[|g gs]|];
         [by apply calls_only_lib| |by apply calls_only_lib];
       apply calls_only_bind; [|intros _; by apply calls_only_lib];
       apply calls_only_for_each; intros [i gid];
       apply calls_only_bind; [by apply calls_only_lib|]; intros subset;
       destruct (0 <? n_cells_of subset)%Z;
         [by apply calls_only_lib|apply calls_only_ret]
     | intros _; apply calls_only_bind; [by apply calls_only_lib|]; intros _;
       repeat first [ by apply calls_only_lib
                    | apply calls_only_bind; [by apply calls_only_lib|intros _] ] ]).
Qed.

(** X22.  Without patterns, be it [show_groups=None] or an empty list,
    [plot_mesh_pv] extracts no group and adds no legend in any run; what it
    adds to the plot is drawn in black and without label.  When no call
    fails it adds the whole mesh, once. *)
Theorem plot_mesh_pv_without_groups (msh_path output : string) (interactive : bool) :
  plot_mesh_pv fault field_data_of n_cells_of msh_path output (Some []) interactive
  = plot_mesh_pv fault field_data_of n_cells_of msh_path output None interactive /\
  calls_only
    (fun c => match c with
              | mesh_extract_cells _ _ | plotter_add_legend => False
              | plotter_add_mesh _ color label => color = "black" /\ label = None
              | _ => True
              end)
    (plot_mesh_pv fault field_data_of n_cells_of msh_path output None interactive) /\
  runs_as
    (plot_mesh_pv (JobDefinition := JobDefinition) quiet field_data_of n_cells_of msh_path output None interactive) tt
    ([meshio_read msh_path; pv_read msh_path; pv_Plotter (negb interactive);
      plotter_set_background "white";
      plotter_add_mesh (MeshOf msh_path) "black" None;
      plotter_set_camera_position "iso"] ++ finish interactive output).
Proof.
  split; [reflexivity|]. split; [|apply (plot_mesh_pv_runs _ _ _ _ None)].
  unfold plot_mesh_pv, lib_pure.
  apply calls_only_bind; [by apply calls_only_lib|]. intros fdata. cbv zeta.
  apply calls_only_bind; [by apply calls_only_lib|]. intros mesh.
  apply calls_only_bind; [destruct interactive; by apply calls_only_lib|]. intros _.
  apply calls_only_bind; [by apply calls_only_lib|]. intros _.
  apply calls_only_bind; [by apply calls_only_lib|]. intros _.
  apply calls_only_bind; [by apply calls_only_lib|]. intros _.
  destruct interactive;
    repeat first [ by apply calls_only_lib
                 | apply calls_only_bind; [by apply calls_only_lib|intros _] ].
Qed.

(** X23.  With patterns and no failing call, [plot_mesh_pv] extracts, from
    the mesh it read, each tag at most once: the tags whose name contains
    one of the patterns, where the name of a tag given several names in the
    file is the last of them.  The legend is added once, after the groups,
    also when no tag was found. *)
Theorem plot_mesh_pv_groups_extracted (msh_path output g : string)
    (gs : list string) (interactive : bool) :
  exists drawing,
    runs_as
      (plot_mesh_pv (JobDefinition := JobDefinition) quiet field_data_of n_cells_of msh_path output (Some (g :: gs))
         interactive) tt
      ([meshio_read msh_path; pv_read msh_path; pv_Plotter (negb interactive);
        plotter_set_background "white"] ++ drawing ++
       [plotter_add_legend; plotter_set_camera_position "iso"] ++
       finish interactive output) /\
    Forall group_call drawing /\
    NoDup (extracted drawing) /\
    (forall t,
       In t (extracted drawing) <->
       exists name, last_name (field_data_of msh_path) t name /\
                    existsb (contains name) (g :: gs) = true) /\
    (forall m t, In (mesh_extract_cells m t) drawing -> m = MeshOf msh_path).
Proof.
  set (mesh := MeshOf msh_path).
  set (gm := group_map_of (field_data_of msh_path)).
  set (ids := shown_ids gm (g :: gs)).
  exists (flat_map (draw_group n_cells_of mesh gm) (imap (fun i gid => (i, gid)) ids)).
  split.
  { eapply runs_as_calls;
      [apply (plot_mesh_pv_runs _ _ _ _ (Some (g :: gs)))|].
    cbv zeta. fold mesh gm ids. by rewrite <- app_assoc. }
  rewrite extracted_draw_groups, snd_imap by done.
  split.
  { apply Forall_forall. intros c (k & t & _ & Hc)%draw_groups_elem.
    unfold draw_group in Hc. cbn [fst snd] in Hc.
    destruct (0 <? n_cells_of (Subset mesh t))%Z;
      [apply elem_of_cons in Hc as [->|Hc]; [done|]|];
      by apply list_elem_of_singleton in Hc as ->. }
  split; [apply shown_ids_NoDup, group_map_NoDup|].
  split.
  { intros t. rewrite <- list_elem_of_In. apply shown_ids_spec. }
  intros m t (k & t' & _ & Hc)%list_elem_of_In%draw_groups_elem.
  unfold draw_group in Hc. cbn [fst snd] in Hc.
  destruct (0 <? n_cells_of (Subset mesh t'))%Z;
    [apply elem_of_cons in Hc as [[= -> _]|Hc]; [done|]|];
    by apply list_elem_of_singleton in Hc as [= -> _].
Qed.

(** X24.  With patterns and no failing call, [plot_mesh_pv] adds to the plot
    exactly the extracted groups that have cells, each labelled with the
    last name the file gives for its tag (the default label [str(gid)] is
    never used), and coloured by the position of its tag among the
    extracted ones, empty groups counted: the sixth colour is followed by
    the first. *)
Theorem plot_mesh_pv_groups_added (msh_path output g : string)
    (gs : list string) (interactive : bool) :
  exists drawing,
    runs_as
      (plot_mesh_pv (JobDefinition := JobDefinition) quiet field_data_of n_cells_of msh_path output (Some (g :: gs))
         interactive) tt
      ([meshio_read msh_path; pv_read msh_path; pv_Plotter (negb interactive);
        plotter_set_background "white"] ++ drawing ++
       [plotter_add_legend; plotter_set_camera_position "iso"] ++
       finish interactive output) /\
    forall m color label,
      In (plotter_add_mesh m color label) drawing <->
      exists (k : nat) (t : Z) (name : string),
        extracted drawing !! k = Some t /\
        m = Subset (MeshOf msh_path) t /\ (0 < n_cells_of m)%Z /\
        color = nth (k mod 6) palette EmptyString /\
        label = Some name /\ last_name (field_data_of msh_path) t name.
Proof.
  set (mesh := MeshOf msh_path).
  set (gm := group_map_of (field_data_of msh_path)).
  set (ids := shown_ids gm (g :: gs)).
  exists (flat_map (draw_group n_cells_of mesh gm) (imap (fun i gid => (i, gid)) ids)).
  split.
  { eapply runs_as_calls;
      [apply (plot_mesh_pv_runs _ _ _ _ (Some (g :: gs)))|].
    cbv zeta. fold mesh gm ids. by rewrite <- app_assoc. }
  rewrite extracted_draw_groups, snd_imap by done.
  assert (forall k t, ids !! k = Some t ->
            exists name, py.dict_get gm t = Some name) as Hnamed.
  { intros k t Hk. apply list_elem_of_lookup_2, shown_ids_elem in Hk
      as (name & Hin & _).
    exists name. by apply dict_get_elem; [apply group_map_NoDup|]. }
  intros m color label. rewrite <- list_elem_of_In, draw_groups_elem. split.
  - intros (k & t & Hk & Hc). unfold draw_group in Hc. cbn [fst snd] in Hc.
    destruct (Hnamed k t Hk) as [name Hname].
    destruct (0 <? n_cells_of (Subset mesh t))%Z eqn:E;
      [apply elem_of_cons in Hc as [Hc|Hc]; [done|]|];
      apply list_elem_of_singleton in Hc; [|done].
    injection Hc as -> -> ->. exists k, t, name.
    split; [done|]. split; [done|]. split; [by apply Z.ltb_lt|].
    split; [done|]. rewrite Hname. split; [done|]. by apply group_map_last.
  - intros (k & t & name & Hk & -> & Hpos & -> & -> & Hlast).
    exists k, t. split; [done|]. unfold draw_group. cbn [fst snd]. fold mesh.
    apply Z.ltb_lt in Hpos. fold mesh in Hpos. rewrite Hpos.
    apply group_map_last in Hlast. fold gm in Hlast. rewrite Hlast.
    apply elem_of_cons. right. by apply list_elem_of_singleton.
Qed.

End plot_properties.

(** ** The tile counts of cmim in binary64 *)

Section binary64_counts.



(** The exact count of the side [k * 0.005] is [floor (k * 0.005 / 1.26)]. *)
Lemma exact_count_floor (k : Z) :
  binary64.exact_count k = Qfloor (inject_Z k * 0.005 / 1.26).
Proof.
  unfold binary64.exact_count.
  rewrite (Qfloor_comp (inject_Z k * 0.005 / 1.26) (k # 252)); [done|].
  unfold Qeq, Qdiv, Qmult, Qinv, inject_Z. simpl. lia.
Qed.



End binary64_counts.


(** ** Witnesses on the demo disk *)

(** X16 on the input directory [in] of the demo disk. *)
Lemma upload_simulation_dir_returns_witness :
  sim_utils.files demo_disk !! sim_utils.cwd demo_disk = Some sim_utils.Dir /\
  sim_utils.files demo_disk !! (sim_utils.cwd demo_disk ++ ["simulation_zipfile.zip"])
    <> Some sim_utils.Dir /\
  exists members,
    fst (sim_utils.upload_simulation_dir quiet echo_reply in_dir "job" demo_world)
    = sim_utils.Ok (echo_reply (sim_utils.Archive members) "job").
Proof.
  assert (sim_utils.files demo_disk !! sim_utils.cwd demo_disk = Some sim_utils.Dir)
    as H1 by (by vm_compute).
  assert (sim_utils.files demo_disk
            !! (sim_utils.cwd demo_disk ++ ["simulation_zipfile.zip"])
          <> Some sim_utils.Dir) as H2 by (by vm_compute).
  split; [exact H1|]. split; [exact H2|].
  exact (proj1 (upload_simulation_dir_returns echo_reply in_dir "job" demo_world
                  H1 H2)).
Defined.


(** X13 on the first two vias of the default transistor. *)
Lemma npn13G2_vias_apart_witness :
  In (nth 0 (gf.refs bjt_transistors.npn13G2_default) (placed 0 0 "Via1drawing" 0 0))
     (gf.refs bjt_transistors.npn13G2_default) /\
  In (nth 1 (gf.refs bjt_transistors.npn13G2_default) (placed 0 0 "Via1drawing" 0 0))
     (gf.refs bjt_transistors.npn13G2_default) /\
  nth 0 (gf.refs bjt_transistors.npn13G2_default) (placed 0 0 "Via1drawing" 0 0)
    <> nth 1 (gf.refs bjt_transistors.npn13G2_default) (placed 0 0 "Via1drawing" 0 0) /\
  apart 0.22
    (nth 0 (gf.refs bjt_transistors.npn13G2_default) (placed 0 0 "Via1drawing" 0 0))
    (nth 1 (gf.refs bjt_transistors.npn13G2_default) (placed 0 0 "Via1drawing" 0 0)).
Proof.
  assert (In (nth 0 (gf.refs bjt_transistors.npn13G2_default)
                (placed 0 0 "Via1drawing" 0 0))
             (gf.refs bjt_transistors.npn13G2_default)) as H0
    by (vm_compute; left; reflexivity).
  assert (In (nth 1 (gf.refs bjt_transistors.npn13G2_default)
                (placed 0 0 "Via1drawing" 0 0))
             (gf.refs bjt_transistors.npn13G2_default)) as H1
    by (vm_compute; right; left; reflexivity).
  assert (nth 0 (gf.refs bjt_transistors.npn13G2_default)
            (placed 0 0 "Via1drawing" 0 0)
          <> nth 1 (gf.refs bjt_transistors.npn13G2_default)
               (placed 0 0 "Via1drawing" 0 0)) as Hne
    by (vm_compute; intros H; discriminate H).
  split; [exact H0|]. split; [exact H1|]. split; [exact Hne|].
  exact (npn13G2_vias_apart 0.44 0.3 0.07 0.1 0.15 0.18 0.9 0.7 1 1 "npn13G2" 0 0
           None _ _ H0 H1 Hne).
Defined.
